(** * css-jsPDF: the layout and composition engine of [jsPDF++]

    A shallow embedding of the rendering core (unit conversions, the inline
    bold parser, the inline bold word wrapper, the page-overflow helper and
    the section composer of [generatePDF]) together with the properties the
    specification states about them.

    Numbers.  JavaScript numbers are modelled as exact rationals [Q]:
    arithmetic is the exact one, comparisons are the usual order.  Rounding,
    infinities and NaN of IEEE doubles are outside the model.  Arithmetic
    results are compared with [==] (equality of rationals); [=] is used
    where the code passes the very same value on.

    Strings.  JavaScript strings are modelled as [string]; [text[i]] is
    [String.get i text], whose [None] plays the role of [undefined]. *)

From Equations Require Import Equations.
From Stdlib Require Import ZArith QArith Lqa Lia List String Ascii Bool Arith.
Import ListNotations.

Local Open Scope Q_scope.
Local Open Scope string_scope.

(** ** Themes *)

(** An RGB colour, [[r, g, b]] in the theme files. *)
Definition RGB : Type := (Z * Z * Z)%type.

(** [theme.spacing].  Two of the six themes define [sectionMarginBottom];
    the composer reads it in one place, after each job of an experience
    section, where a theme without it makes [y] a NaN.  A rational cannot
    be NaN: for such a theme the record stands for the code only up to the
    end of the first job, and for every document without jobs. *)
Record Spacing := {
  h1MarginBottom : Q;
  subHeaderMarginBottom : Q;
  h2MarginTop : Q;
  h2MarginBottom : Q;
  h3MarginTop : Q;
  jobHeaderMarginBottom : Q;
  ulMarginBottom : Q;
  liMarginBottom : Q;
  sectionMarginBottom : Q
}.

Record Fonts := {
  fonts_h1 : Q;
  fonts_subHeader : Q;
  fonts_h2 : Q;
  fonts_h3 : Q;
  fonts_li : Q;
  fonts_body : Q
}.

Record LineHeights := {
  lineHeights_li : Q;
  lineHeights_body : Q
}.

(** [prefixGreen], [prefixGray] and [bulletColor] are present in some themes
    only; the code reads them through [a || b]. *)
Record Colors := {
  colors_bg : RGB;
  colors_name : RGB;
  colors_role : RGB;
  colors_heading : RGB;
  colors_text : RGB;
  colors_prefixGreen : option RGB;
  colors_prefixGray : option RGB;
  colors_bulletColor : option RGB
}.

Record Prefixes := {
  prefixes_h1 : string;
  prefixes_subHeader : string;
  prefixes_h2 : string;
  prefixes_h3 : string;
  prefixes_jobMeta : string;
  prefixes_bullet : string
}.

Record Images := {
  headerBar : string;
  sectionBar : string;
  headerBarHeight : Q;
  sectionBarWidth : Q;
  sectionBarHeight : Q;
  sectionBarOffset : Q
}.

Record Theme := {
  theme_name : string;
  margin : Q;
  spacing : Spacing;
  fonts : Fonts;
  lineHeights : LineHeights;
  colors : Colors;
  prefixes : Prefixes;
  images : option Images
}.

(** JavaScript's [a || b] on a possibly missing colour. *)
Definition orElse {A : Type} (a : option A) (b : A) : A :=
  match a with
  | Some v => v
  | None => b
  end.

(** Truthiness of a string: the empty string is falsy. *)
Definition truthy (s : string) : bool :=
  match s with
  | EmptyString => false
  | String _ _ => true
  end.

(** ** Unit conversions *)

Definition PT_TO_MM : Q := 25.4 / 72.
Definition PX_TO_MM : Q := 25.4 / 96.

Definition px (theme : Theme) (value : Q) : Q := value * PX_TO_MM.

Definition pt (theme : Theme) (value : Q) : Q := value * PT_TO_MM.

Definition lineHeight (theme : Theme) (fontSize lh : Q) : Q :=
  fontSize * lh * PT_TO_MM.

(** [a > b] on numbers. *)
Definition Qgtb (a b : Q) : bool := negb (Qle_bool a b).

(** ** The inline bold parser *)

Record Segment := { seg_text : string; seg_bold : bool }.

(** [text[i] === '*'] *)
Definition isStarAt (s : string) (i : nat) : bool :=
  match String.get i s with
  | Some c => Ascii.eqb c "*"
  | None => false
  end.

(** [current += text[i]]; an index past the end would read [undefined]. *)
Definition appendCharAt (current s : string) (i : nat) : string :=
  match String.get i s with
  | Some c => current ++ String c EmptyString
  | None => current ++ "undefined"
  end.

(** [if (current) segments.push({ text: current, bold: inBold })] *)
Definition pushIfAny (segments : list Segment) (current : string)
    (inBold : bool) : list Segment :=
  if truthy current
  then segments ++ [ {| seg_text := current; seg_bold := inBold |} ]
  else segments.

(** The [while (i < text.length)] loop followed by the final flush.  Every
    iteration advances [i], so [text.length - i] decreases. *)
Equations? parseLoop (s : string) (i : nat) (current : string)
    (inBold : bool) (segments : list Segment) : list Segment
    by wf (String.length s - i)%nat lt :=
  parseLoop s i current inBold segments with lt_dec i (String.length s) := {
    | left _ =>
        if isStarAt s i && isStarAt s (i + 1) then
          parseLoop s (i + 2) EmptyString (negb inBold)
            (pushIfAny segments current inBold)
        else
          parseLoop s (i + 1) (appendCharAt current s i) inBold segments
    | right _ => pushIfAny segments current inBold }.
Proof. all: lia. Qed.

Definition parseInlineBold (s : string) : list Segment :=
  parseLoop s 0 EmptyString false [].

(** Concatenation of the [text] fields of a segment sequence. *)
Definition concatTexts (segments : list Segment) : string :=
  fold_right (fun seg acc => seg_text seg ++ acc) EmptyString segments.

(** *** The delimiter structure of an input string

    These definitions read the input string alone, from left to right, the
    way [text.split('**')] does; the parser is compared with them. *)

Definition isStar (c : ascii) : bool := Ascii.eqb c "*".

(** [current] put in front of the first piece. *)
Definition prependTo (current : string) (cs : list string) : list string :=
  match cs with
  | h :: t => (current ++ h) :: t
  | [] => [current]
  end.

(** The pieces between consecutive [**] delimiters. *)
Fixpoint chunks (s : string) : list string :=
  match s with
  | EmptyString => [EmptyString]
  | String c r =>
      match r with
      | String c' r' =>
          if isStar c && isStar c' then EmptyString :: chunks r'
          else prependTo (String c EmptyString) (chunks r)
      | EmptyString => [String c EmptyString]
      end
  end.

(** The input with every [**] removed. *)
Fixpoint stripDelims (s : string) : string :=
  match s with
  | EmptyString => EmptyString
  | String c r =>
      match r with
      | String c' r' =>
          if isStar c && isStar c' then stripDelims r'
          else String c (stripDelims r)
      | EmptyString => String c EmptyString
      end
  end.

(** Number of [**] delimiters. *)
Fixpoint countDelims (s : string) : nat :=
  match s with
  | EmptyString => O
  | String c r =>
      match r with
      | String c' r' =>
          if isStar c && isStar c' then S (countDelims r')
          else countDelims r
      | EmptyString => O
      end
  end.


(** The segments of a chunk sequence whose first chunk carries flag [b]:
    flags alternate, empty chunks give no segment. *)
Fixpoint segmentsOf (b : bool) (cs : list string) : list Segment :=
  match cs with
  | [] => []
  | h :: t => pushIfAny [] h b ++ segmentsOf (negb b) t
  end.

(** ** The backend document as a log of calls *)

(** The ghost markdown tokens. *)
Inductive MarkerKind := MkH1 | MkContact | MkH2 | MkH3 | MkBullet.

Definition markerToken (k : MarkerKind) : string :=
  match k with
  | MkH1 => "# "
  | MkContact => "**Contact:** "
  | MkH2 => "## "
  | MkH3 => "### "
  | MkBullet => "- "
  end.

(** The place of a [doc.text] call in the source.  The label records which
    statement made the call; the backend does not see it. *)
Inductive Site :=
| Ghost (k : MarkerKind)      (* "Ghost markdown": the invisible token *)
| Prefix                      (* a theme prefix such as "$ whoami > " *)
| Content (k : MarkerKind)    (* name, contact, section title, company,
                                 bullet text *)
| Glyph                       (* the bullet character of the theme *)
| Plain                       (* summary lines, role title, period *)
| Word                        (* a word placed by renderInlineBold *)
| BoldMarker.                 (* a "**" placed by renderInlineBold *)

(** What [generatePDF] can hand to [doc.setFont] as font name: a string, or,
    when the theme name is the key of a member that the object literal
    [themeFonts] inherits from [Object.prototype], that member. *)
Inductive FontName :=
| Family (name : string)
| Inherited (key : string).

Coercion Family : string >-> FontName.

(** One call on [doc].  [CheckPageOverflow] is not a backend call: it marks
    the entry into the helper of that name, so that the order of helper calls
    and drawing calls can be read off the log. *)
Inductive Event :=
| SetFontSize (size : Q)
| SetFont (family : FontName) (style : string)
| SetTextColor (c : RGB)
| SetFillColor (c : RGB)
| SetDrawColor (c : RGB)
| SetLineWidth (w : Q)
| Text (site : Site) (s : string) (x y : Q)
| TextLines (site : Site) (lines : list string) (x y : Q)
| TextRight (site : Site) (s : string) (x y : Q)
| Rect (x y w h : Q)
| Line (x1 y1 x2 y2 : Q)
| Triangle (x1 y1 x2 y2 x3 y3 : Q)
| AddImage (data : string) (x y w h : Q)
| AddPage
| Save (filename : string)
| CheckPageOverflow (requiredSpace : Q).

(** The page index of a document: the number of pages added so far. *)
Fixpoint pageIndex (doc : list Event) : nat :=
  match doc with
  | [] => O
  | AddPage :: r => S (pageIndex r)
  | _ :: r => pageIndex r
  end.

(** ** Documents *)

Record Role := {
  role_title : string;
  role_period : string;
  role_bullets : list string
}.

Record Job := {
  job_company : string;
  job_roles : list Role
}.

(** [section.type] and the fields each branch reads.  A missing or empty
    string is falsy in both cases and is modelled by the empty string. *)
Inductive SectionData :=
| Header (name contact : string)
| Summary (text : string)
| BulletSection (title : string) (bullets : list string)
| Experience (title : string) (jobs : list Job)
| OtherSection (type : string).

(** ** Strings *)

(** [s.split(sep)] for a one-character separator. *)
Fixpoint split (sep : ascii) (s : string) : list string :=
  match s with
  | EmptyString => [EmptyString]
  | String c r =>
      if Ascii.eqb c sep then EmptyString :: split sep r
      else match split sep r with
           | h :: t => String c h :: t
           | [] => [String c EmptyString]
           end
  end.

(** The keys of the members a plain object inherits from
    [Object.prototype].  Each of these members is a function or an object,
    hence truthy. *)
Definition objectPrototype : list string :=
  [ "constructor"; "hasOwnProperty"; "isPrototypeOf";
    "propertyIsEnumerable"; "toLocaleString"; "toString"; "valueOf";
    "__proto__"; "__defineGetter__"; "__defineSetter__";
    "__lookupGetter__"; "__lookupSetter__" ]%string.

Definition inherited (key : string) : bool :=
  existsb (String.eqb key) objectPrototype.

(** [themeFonts[name]]: the six own properties of the object literal, then
    the inherited members; [None] is [undefined]. *)
Definition themeFonts (name : string) : option FontName :=
  if String.eqb name "Modern Professional" then Some (Family "Inter")
  else if String.eqb name "Classic Minimalist" then Some (Family "Inter")
  else if String.eqb name "Compact Executive"
  then Some (Family "JetBrainsMono")
  else if String.eqb name "Terminal/Hacker" then Some (Family "JetBrainsMono")
  else if String.eqb name "Creative Designer" then Some (Family "Inter")
  else if String.eqb name "Creative Designer 2" then Some (Family "Inter")
  else if inherited name then Some (Inherited name)
  else None.

(** ** The four-petal diamond *)

Definition Point : Type := (Q * Q)%type.

(** The four point lists [topPoints], [rightPoints], [bottomPoints] and
    [leftPoints] of the diamond branch, for the locals [cx], [cy], [size]. *)
Definition topPoints (cx cy size : Q) : list Point :=
  [ (cx, cy - size);
    (cx - size * 0.3, cy - size * 0.3);
    (cx, cy);
    (cx + size * 0.3, cy - size * 0.3) ].

Definition rightPoints (cx cy size : Q) : list Point :=
  [ (cx + size, cy);
    (cx + size * 0.3, cy - size * 0.3);
    (cx, cy);
    (cx + size * 0.3, cy + size * 0.3) ].

Definition bottomPoints (cx cy size : Q) : list Point :=
  [ (cx, cy + size);
    (cx + size * 0.3, cy + size * 0.3);
    (cx, cy);
    (cx - size * 0.3, cy + size * 0.3) ].

Definition leftPoints (cx cy size : Q) : list Point :=
  [ (cx - size, cy);
    (cx - size * 0.3, cy + size * 0.3);
    (cx, cy);
    (cx - size * 0.3, cy - size * 0.3) ].

(** [petal[i]]; the lists above have four points each. *)
Definition at_ (petal : list Point) (i : nat) : Point :=
  nth i petal (0, 0).

(** The two [doc.triangle] calls made for one petal. *)
Definition petalTriangles (petal : list Point) : list Event :=
  [ Triangle (fst (at_ petal 0)) (snd (at_ petal 0))
             (fst (at_ petal 1)) (snd (at_ petal 1))
             (fst (at_ petal 2)) (snd (at_ petal 2));
    Triangle (fst (at_ petal 0)) (snd (at_ petal 0))
             (fst (at_ petal 3)) (snd (at_ petal 3))
             (fst (at_ petal 2)) (snd (at_ petal 2)) ].

(** [[topPoints, rightPoints, bottomPoints, leftPoints].forEach(...)] *)
Definition diamondTriangles (cx cy size : Q) : list Event :=
  flat_map petalTriangles
    [ topPoints cx cy size; rightPoints cx cy size;
      bottomPoints cx cy size; leftPoints cx cy size ].

(** ** The composer's state and its operations *)

(** The mutable state of one render: the variable [y] of [generatePDF] and
    the document, which is the log of the calls made on [doc]. *)
Record State := { st_y : Q; st_doc : list Event }.

Definition M (A : Type) : Type := State -> A * State.

Definition ret {A : Type} (a : A) : M A := fun st => (a, st).

Definition bind {A B : Type} (m : M A) (k : A -> M B) : M B :=
  fun st => let (a, st') := m st in k a st'.

Declare Scope render_scope.
Delimit Scope render_scope with render.
Notation "x <- m ;; k" := (bind m (fun x => k))
  (at level 61, m at next level, right associativity) : render_scope.
Notation "m ;; k" := (bind m (fun _ => k))
  (at level 61, right associativity) : render_scope.
Local Open Scope render_scope.

(** A call on [doc]. *)
Definition emit (e : Event) : M unit :=
  fun st => (tt, {| st_y := st_y st; st_doc := st_doc st ++ [e] |}).

Definition getY : M Q := fun st => (st_y st, st).

Definition setY (v : Q) : M unit :=
  fun st => (tt, {| st_y := v; st_doc := st_doc st |}).

(** [y += d] *)
Definition advance (d : Q) : M unit :=
  fun st => (tt, {| st_y := st_y st + d; st_doc := st_doc st |}).

Definition when (b : bool) (m : M unit) : M unit :=
  if b then m else ret tt.

(** [l.forEach(f)] *)
Fixpoint forEach {A : Type} (l : list A) (f : A -> M unit) : M unit :=
  match l with
  | [] => ret tt
  | a :: r => f a ;; forEach r f
  end.

(** The number of elements of an array, as a number. *)
Definition lengthQ {A : Type} (l : list A) : Q :=
  inject_Z (Z.of_nat (List.length l)).

Definition pageWidth : Q := 210.
Definition pageHeight : Q := 297.

Section Engine.

(** The backend's answers.  What [doc.getTextWidth] and
    [doc.splitTextToSize] return depends on the font and size selected by
    earlier calls, so they read the log.  [toUpperCase] is the string method,
    [loadImageAsBase64] the asset loader ([None] when the image is
    unavailable). *)
Variable getTextWidth : list Event -> string -> Q.
Variable splitTextToSize : list Event -> string -> Q -> list string.
Variable toUpperCase : string -> string.
Variable loadImageAsBase64 : string -> option string.

Definition measure (s : string) : M Q :=
  fun st => (getTextWidth (st_doc st) s, st).

Definition splitToSize (s : string) (maxWidth : Q) : M (list string) :=
  fun st => (splitTextToSize (st_doc st) s maxWidth, st).

(** *** renderInlineBold *)

(** The locals [currentX], [currentY] of [renderInlineBold] and [doc]. *)
Record Flow := { currentX : Q; currentY : Q; flow_doc : list Event }.

Definition draw (e : Event) (fl : Flow) : Flow :=
  {| currentX := currentX fl; currentY := currentY fl;
     flow_doc := flow_doc fl ++ [e] |}.

(** [words.length - 1], and the tests [idx < n] and [idx === n] on it. *)
Definition lastIndex (nwords : nat) : Z := Z.of_nat nwords - 1.

Definition isBefore (idx : nat) (n : Z) : bool := (Z.of_nat idx <? n)%Z.

Definition isAt (idx : nat) (n : Z) : bool := (Z.of_nat idx =? n)%Z.

(** The body of [words.forEach((word, idx) => ...)]. *)
Definition renderWord (theme : Theme) (x rightEdge : Q) (fontFamily : string)
    (segment : Segment) (nwords : nat) (word : string) (idx : nat)
    (fl : Flow) : Flow :=
  let textToRender :=
    if isBefore idx (lastIndex nwords) then word ++ " " else word in
  let font := if seg_bold segment then "bold" else "normal" in
  let fl := draw (SetFont fontFamily font) fl in
  let textWidth := getTextWidth (flow_doc fl) textToRender in
  let fl :=
    if Qgtb (currentX fl + textWidth) rightEdge && Qgtb (currentX fl) x
    then {| currentX := x;
            currentY := currentY fl
              + lineHeight theme (fonts_li (fonts theme))
                  (lineHeights_li (lineHeights theme));
            flow_doc := flow_doc fl |}
    else fl in
  let fl :=
    if seg_bold segment && (idx =? 0)%nat
    then draw (Text BoldMarker "**" (currentX fl) (currentY fl))
           (draw (SetTextColor (colors_bg (colors theme))) fl)
    else fl in
  let fl := draw (SetTextColor (colors_text (colors theme))) fl in
  let fl := draw (Text Word textToRender (currentX fl) (currentY fl)) fl in
  let fl := {| currentX := currentX fl + textWidth;
               currentY := currentY fl; flow_doc := flow_doc fl |} in
  if seg_bold segment && isAt idx (lastIndex nwords)
  then draw (Text BoldMarker "**" (currentX fl) (currentY fl))
         (draw (SetTextColor (colors_bg (colors theme))) fl)
  else fl.

(** [words.forEach] with its index argument. *)
Fixpoint forEachWord (f : string -> nat -> Flow -> Flow) (words : list string)
    (idx : nat) (fl : Flow) : Flow :=
  match words with
  | [] => fl
  | word :: rest => forEachWord f rest (S idx) (f word idx fl)
  end.

(** The body of [segments.forEach(segment => ...)]. *)
Definition renderSegment (theme : Theme) (x rightEdge : Q)
    (fontFamily : string) (fl : Flow) (segment : Segment) : Flow :=
  let words := split " " (seg_text segment) in
  forEachWord
    (renderWord theme x rightEdge fontFamily segment (List.length words))
    words 0 fl.

Definition renderSegments (theme : Theme) (x rightEdge : Q)
    (fontFamily : string) (segments : list Segment) (fl : Flow) : Flow :=
  fold_left (renderSegment theme x rightEdge fontFamily) segments fl.

(** [renderInlineBold(doc, text, x, y, theme, maxWidth, pageWidth, margin,
    fontFamily)]: the final [currentY] and the document after the calls. *)
Definition renderInlineBold (doc : list Event) (text : string) (x y : Q)
    (theme : Theme) (maxWidth pageWidth margin : Q) (fontFamily : string)
    : Q * list Event :=
  let segments := parseInlineBold text in
  let rightEdge := pageWidth - margin in
  let fl := renderSegments theme x rightEdge fontFamily segments
              {| currentX := x; currentY := y; flow_doc := doc |} in
  (currentY fl, flow_doc fl).

(** *** generatePDF *)

Section Render.

Variable theme : Theme.

(** [headerBarImage] and [sectionBarImage] after the loading step. *)
Variable headerBarImage : option string.
Variable sectionBarImage : option string.

(** [themeFonts[theme.name] || 'Inter'] *)
Definition fontFamily : FontName :=
  orElse (themeFonts (theme_name theme)) (Family "Inter").

Definition bg : RGB := colors_bg (colors theme).

Definition isTheme (name : string) : bool := String.eqb (theme_name theme) name.

(** Helper: add new page with background. *)
Definition addNewPage : M unit :=
  emit AddPage ;;
  emit (SetFillColor bg) ;;
  emit (Rect 0 0 pageWidth pageHeight) ;;
  setY (margin theme).

(** Helper: check if we need a new page. *)
Definition checkPageOverflow (requiredSpace : Q) : M bool :=
  emit (CheckPageOverflow requiredSpace) ;;
  y <- getY ;;
  if Qgtb (y + requiredSpace) (pageHeight - margin theme)
  then addNewPage ;; ret true
  else ret false.

(** [drawCompactSectionBox(doc, text, x, y, theme, fontFamily, pageWidth,
    margin)] *)
Definition drawCompactSectionBox (text : string) (x y : Q) : M unit :=
  when (isTheme "Compact Executive")
    (let fontSize := pt theme (fonts_h2 (fonts theme)) in
     let textHeight := fontSize * 0.7 in
     let padding := 1 in
     let barY := y - textHeight - padding in
     let barHeight := textHeight + padding * 2 in
     emit (SetFillColor (230, 231, 235)%Z) ;;
     emit (Rect (margin theme) barY (pageWidth - 2 * margin theme) barHeight) ;;
     emit (SetDrawColor (0, 0, 0)%Z) ;;
     emit (SetLineWidth 0.5) ;;
     emit (Line (margin theme) barY (margin theme) (barY + barHeight))).

(** A terminal prefix drawn at [(x0, y)]; returns the x after it. *)
Definition prefixColorGreen : RGB :=
  orElse (colors_prefixGreen (colors theme)) (colors_heading (colors theme)).

Definition prefixColorGray : RGB :=
  orElse (colors_prefixGray (colors theme)) (colors_role (colors theme)).

Definition bulletColor : RGB :=
  orElse (colors_bulletColor (colors theme))
    (orElse (colors_prefixGreen (colors theme)) (colors_text (colors theme))).

(** The header branch. *)
Definition renderHeader (name contact : string) : M unit :=
  emit (SetFontSize (fonts_h1 (fonts theme))) ;;
  emit (SetFont fontFamily "bold") ;;
  emit (SetTextColor bg) ;;
  y <- getY ;;
  emit (Text (Ghost MkH1) "# " (margin theme) y) ;;
  nameX <-
    (if truthy (prefixes_h1 (prefixes theme)) then
       emit (SetFontSize 10) ;;
       emit (SetTextColor prefixColorGreen) ;;
       emit (Text Prefix (prefixes_h1 (prefixes theme)) (margin theme) y) ;;
       prefixWidth <- measure (prefixes_h1 (prefixes theme)) ;;
       emit (SetFontSize (fonts_h1 (fonts theme))) ;;
       ret (margin theme + prefixWidth)
     else ret (margin theme)) ;;
  emit (SetTextColor (colors_name (colors theme))) ;;
  (if isTheme "Classic Minimalist" then
     let nameText := toUpperCase name in
     nameWidth <- measure nameText ;;
     let centerX := (pageWidth - nameWidth) / 2 in
     emit (Text (Content MkH1) nameText centerX y)
   else emit (Text (Content MkH1) name nameX y)) ;;
  advance (pt theme (fonts_h1 (fonts theme))) ;;
  advance (px theme (h1MarginBottom (spacing theme))) ;;
  when (truthy contact)
    (emit (SetFontSize (fonts_subHeader (fonts theme))) ;;
     emit (SetFont fontFamily "normal") ;;
     emit (SetTextColor bg) ;;
     y <- getY ;;
     emit (Text (Ghost MkContact) "**Contact:** " (margin theme) y) ;;
     contactX <-
       (if truthy (prefixes_subHeader (prefixes theme)) then
          emit (SetTextColor prefixColorGreen) ;;
          emit (Text Prefix (prefixes_subHeader (prefixes theme))
                  (margin theme) y) ;;
          prefixWidth <- measure (prefixes_subHeader (prefixes theme)) ;;
          ret (margin theme + prefixWidth)
        else ret (margin theme)) ;;
     emit (SetTextColor (colors_role (colors theme))) ;;
     emit (Text (Content MkContact) contact contactX y) ;;
     advance (pt theme (fonts_subHeader (fonts theme))) ;;
     match headerBarImage, images theme with
     | Some data, Some img =>
         let barWidth := pageWidth - 2 * margin theme in
         let barHeight := headerBarHeight img in
         y <- getY ;;
         emit (AddImage data (margin theme) y barWidth barHeight) ;;
         advance (barHeight + 2)
     | _, _ => ret tt
     end ;;
     advance (px theme (subHeaderMarginBottom (spacing theme)))) ;;
  when (isTheme "Classic Minimalist")
    (emit (SetDrawColor (0, 0, 0)%Z) ;;
     emit (SetLineWidth 1.5) ;;
     y <- getY ;;
     emit (Line (margin theme) y (pageWidth - margin theme) y) ;;
     advance 4) ;;
  when (isTheme "Compact Executive")
    (emit (SetDrawColor (0, 0, 0)%Z) ;;
     emit (SetLineWidth 0.5) ;;
     y <- getY ;;
     emit (Line (margin theme) y (pageWidth - margin theme) y) ;;
     advance 6).

(** The summary branch. *)
Definition renderSummary (text : string) : M unit :=
  checkPageOverflow 30 ;;
  emit (SetFontSize (fonts_body (fonts theme))) ;;
  emit (SetFont fontFamily "normal") ;;
  emit (SetTextColor (colors_text (colors theme))) ;;
  let maxWidth := pageWidth - 2 * margin theme in
  summaryLines <- splitToSize text maxWidth ;;
  y <- getY ;;
  emit (TextLines Plain summaryLines (margin theme) y) ;;
  advance (lengthQ summaryLines
           * lineHeight theme (fonts_body (fonts theme))
               (lineHeights_body (lineHeights theme))) ;;
  advance (px theme (h2MarginTop (spacing theme))).

(** The creative themes' section bar image. *)
Definition drawSectionBar : M unit :=
  match sectionBarImage, images theme with
  | Some data, Some img =>
      let barX := margin theme + sectionBarOffset img in
      let barWidth := sectionBarWidth img in
      let barHeight := sectionBarHeight img in
      let fontSize := pt theme (fonts_h2 (fonts theme)) in
      let capHeight := fontSize * 0.7 in
      y <- getY ;;
      let capCenter := y - capHeight / 2 in
      let barY := capCenter - barHeight / 2 in
      emit (AddImage data barX barY barWidth barHeight)
  | _, _ => ret tt
  end.

(** The bullet shape or character of the theme, drawn at the cursor. *)
Definition drawBulletShape : M unit :=
  y <- getY ;;
  if isTheme "Creative Designer" then
    let cx := margin theme + 6 in
    let cy := y - 1 in
    let size := 0.9 in
    emit (SetFillColor bulletColor) ;;
    forEach (diamondTriangles cx cy size) emit
  else if isTheme "Creative Designer 2" then
    let x1 := margin theme + 5 in
    let y1 := y - 1.5 in
    let x2 := margin theme + 5 in
    let y2 := y - 0.5 in
    let x3 := margin theme + 6.5 in
    let y3 := y - 1 in
    emit (Triangle x1 y1 x2 y2 x3 y3)
  else
    emit (SetTextColor bulletColor) ;;
    emit (Text Glyph (prefixes_bullet (prefixes theme) ++ " ")
            (margin theme + 5) y).

(** The body of [bullets.forEach(bullet => ...)], the same in the generic
    section and in a role. *)
Definition renderBullet (bullet : string) : M unit :=
  checkPageOverflow 15 ;;
  let maxWidth := pageWidth - 2 * margin theme - 10 in
  emit (SetTextColor bg) ;;
  y <- getY ;;
  emit (Text (Ghost MkBullet) "- " (margin theme) y) ;;
  emit (SetTextColor bulletColor) ;;
  emit (SetFillColor bulletColor) ;;
  drawBulletShape ;;
  emit (SetFont fontFamily "normal") ;;
  emit (SetTextColor (colors_text (colors theme))) ;;
  bulletLines <- splitToSize bullet maxWidth ;;
  emit (TextLines (Content MkBullet) bulletLines (margin theme + 10) y) ;;
  advance (lengthQ bulletLines
           * lineHeight theme (fonts_li (fonts theme))
               (lineHeights_li (lineHeights theme))) ;;
  advance (px theme (liMarginBottom (spacing theme))).

(** The title line shared by the generic and the experience branch, from the
    prefix on: prefix, compact box, title text, and the advance below it. *)
Definition renderSectionTitle (title : string) : M unit :=
  y <- getY ;;
  sectionX <-
    (if truthy (prefixes_h2 (prefixes theme)) then
       emit (SetTextColor prefixColorGreen) ;;
       emit (Text Prefix (prefixes_h2 (prefixes theme)) (margin theme) y) ;;
       prefixWidth <- measure (prefixes_h2 (prefixes theme)) ;;
       ret (margin theme + prefixWidth)
     else ret (margin theme)) ;;
  let sectionText := toUpperCase title in
  drawCompactSectionBox sectionText sectionX y ;;
  let textX :=
    if isTheme "Compact Executive" then sectionX + 2 else sectionX in
  let textColor :=
    if isTheme "Compact Executive" then (37, 99, 235)%Z
    else colors_heading (colors theme) in
  emit (SetTextColor textColor) ;;
  emit (Text (Content MkH2) sectionText textX y) ;;
  advance (pt theme (fonts_h2 (fonts theme))) ;;
  advance (px theme (h2MarginBottom (spacing theme))).

(** The generic section branch (Skills, etc.). *)
Definition renderBulletSection (title : string) (bullets : list string)
    : M unit :=
  checkPageOverflow 30 ;;
  advance (px theme (h2MarginTop (spacing theme))) ;;
  drawSectionBar ;;
  emit (SetFontSize (fonts_h2 (fonts theme))) ;;
  emit (SetFont fontFamily "bold") ;;
  emit (SetTextColor bg) ;;
  y <- getY ;;
  emit (Text (Ghost MkH2) "## " (margin theme) y) ;;
  renderSectionTitle title ;;
  forEach bullets renderBullet.

(** The body of [job.roles.forEach((role, roleIndex) => ...)]. *)
Definition renderRole (role : Role) : M unit :=
  checkPageOverflow 30 ;;
  when (truthy (role_title role) || truthy (role_period role))
    (emit (SetFontSize (fonts_subHeader (fonts theme))) ;;
     emit (SetFont fontFamily "normal") ;;
     y <- getY ;;
     metaX <-
       (if truthy (prefixes_jobMeta (prefixes theme)) then
          emit (SetTextColor prefixColorGray) ;;
          emit (Text Prefix (prefixes_jobMeta (prefixes theme))
                  (margin theme) y) ;;
          prefixWidth <- measure (prefixes_jobMeta (prefixes theme)) ;;
          ret (margin theme + prefixWidth)
        else ret (margin theme)) ;;
     when (truthy (role_title role))
       (emit (SetTextColor (colors_role (colors theme))) ;;
        emit (Text Plain (role_title role) metaX y)) ;;
     when (truthy (role_period role))
       (emit (SetTextColor (colors_role (colors theme))) ;;
        emit (TextRight Plain (role_period role)
                (pageWidth - margin theme) y)) ;;
     advance (pt theme (fonts_subHeader (fonts theme))) ;;
     advance (px theme (jobHeaderMarginBottom (spacing theme)))) ;;
  forEach (role_bullets role) renderBullet ;;
  advance (px theme (ulMarginBottom (spacing theme))).

(** The body of [section.content.jobs.forEach(job => ...)]. *)
Definition renderJob (job : Job) : M unit :=
  checkPageOverflow 40 ;;
  when (truthy (job_company job))
    (advance (px theme (h3MarginTop (spacing theme))) ;;
     emit (SetFontSize (fonts_h3 (fonts theme))) ;;
     emit (SetFont fontFamily "bold") ;;
     emit (SetTextColor bg) ;;
     y <- getY ;;
     emit (Text (Ghost MkH3) "### " (margin theme) y) ;;
     companyX <-
       (if truthy (prefixes_h3 (prefixes theme)) then
          emit (SetTextColor prefixColorGray) ;;
          emit (Text Prefix (prefixes_h3 (prefixes theme)) (margin theme) y) ;;
          prefixWidth <- measure (prefixes_h3 (prefixes theme)) ;;
          ret (margin theme + prefixWidth)
        else ret (margin theme)) ;;
     emit (SetTextColor (colors_text (colors theme))) ;;
     emit (Text (Content MkH3) (job_company job) companyX y) ;;
     advance (pt theme (fonts_h3 (fonts theme))) ;;
     advance (px theme (jobHeaderMarginBottom (spacing theme)))) ;;
  forEach (job_roles job) renderRole ;;
  advance (px theme (sectionMarginBottom (spacing theme)) / 2).

(** The experience branch. *)
Definition renderExperience (title : string) (jobs : list Job) : M unit :=
  checkPageOverflow 30 ;;
  advance (px theme (h2MarginTop (spacing theme))) ;;
  drawSectionBar ;;
  emit (SetTextColor bg) ;;
  y <- getY ;;
  emit (Text (Ghost MkH2) "## " (margin theme) y) ;;
  emit (SetFontSize (fonts_h2 (fonts theme))) ;;
  emit (SetFont fontFamily "bold") ;;
  renderSectionTitle title ;;
  forEach jobs renderJob.

(** The body of [formData.sections.forEach(section => ...)]. *)
Definition renderSection (section : SectionData) : M unit :=
  match section with
  | Header name contact => renderHeader name contact
  | Summary text => renderSummary text
  | BulletSection title bullets => renderBulletSection title bullets
  | Experience title jobs => renderExperience title jobs
  | OtherSection _ => ret tt
  end.

Definition renderSections (sections : list SectionData) : M unit :=
  forEach sections renderSection.

End Render.

(** [generatePDF(theme, formData)]: the calls made on a fresh document, from
    the page background on.  The registration of the font files, which comes
    first and draws nothing, is left out. *)
Definition generatePDF (theme : Theme) (sections : list SectionData)
    : list Event :=
  let headerBarImage :=
    match images theme with
    | Some img => loadImageAsBase64 (headerBar img)
    | None => None
    end in
  let sectionBarImage :=
    match images theme with
    | Some img => loadImageAsBase64 (sectionBar img)
    | None => None
    end in
  let run :=
    emit (SetFillColor (bg theme)) ;;
    emit (Rect 0 0 pageWidth pageHeight) ;;
    renderSections theme headerBarImage sectionBarImage sections ;;
    emit (Save "resume.pdf") in
  st_doc (snd (run {| st_y := margin theme; st_doc := [] |})).

End Engine.

(** ** Reading a log *)

(** The text colour in effect after the calls of [doc]. *)
Fixpoint textColor (doc : list Event) : option RGB :=
  match doc with
  | [] => None
  | e :: r =>
      match textColor r with
      | Some c => Some c
      | None => match e with SetTextColor c => Some c | _ => None end
      end
  end.

(** The ghost token placed by an event: kind, text, x, y. *)
Definition ghostOf (e : Event) : option (MarkerKind * string * Q * Q) :=
  match e with
  | Text (Ghost k) s x y => Some (k, s, x, y)
  | _ => None
  end.

(** The annotated visible content placed by an event: kind, x, y. *)
Definition contentOf (e : Event) : option (MarkerKind * Q * Q) :=
  match e with
  | Text (Content k) _ x y => Some (k, x, y)
  | TextLines (Content k) _ x y => Some (k, x, y)
  | TextRight (Content k) _ x y => Some (k, x, y)
  | _ => None
  end.

(** Ghost tokens and annotated content are the marked events. *)
Definition marked (e : Event) : bool :=
  match ghostOf e, contentOf e with
  | None, None => false
  | _, _ => true
  end.

(** The first marked event of a log. *)
Fixpoint nextMarked (doc : list Event) : option Event :=
  match doc with
  | [] => None
  | e :: r => if marked e then Some e else nextMarked r
  end.

(** The last marked event of a log. *)
Fixpoint lastMarked (doc : list Event) : option Event :=
  match doc with
  | [] => None
  | e :: r =>
      match lastMarked r with
      | Some m => Some m
      | None => if marked e then Some e else None
      end
  end.

(** Whether an event is the entry into [checkPageOverflow]. *)
Definition isCheck (e : Event) : bool :=
  match e with
  | CheckPageOverflow _ => true
  | _ => false
  end.

(** *** The ghost tag discipline as a monitor

    The monitor reads a log from left to right and remembers the text colour
    in effect and the ghost token that still waits for its content.  It stops
    with [None] when a call breaks the discipline. *)

Record Monitor := {
  mon_color : option RGB;
  mon_pending : option (MarkerKind * Q)
}.

Definition rgb_eqb (a b : RGB) : bool :=
  match a, b with
  | (r1, g1, b1), (r2, g2, b2) =>
      (Z.eqb r1 r2 && Z.eqb g1 g2 && Z.eqb b1 b2)%bool
  end.

Definition kind_eqb (a b : MarkerKind) : bool :=
  match a, b with
  | MkH1, MkH1 | MkContact, MkContact | MkH2, MkH2 | MkH3, MkH3
  | MkBullet, MkBullet => true
  | _, _ => false
  end.

(** Equality of two coordinates. *)
Definition sameQ (a b : Q) : bool := Qeq_bool a b.

(** A ghost token is accepted when nothing is pending, the text colour in
    effect is the background colour, the token is the one of its kind and it
    sits at the left margin. *)
Definition acceptsGhost (bgc : RGB) (mx : Q) (mo : Monitor)
    (k : MarkerKind) (s : string) (x : Q) : bool :=
  match mon_color mo, mon_pending mo with
  | Some c, None => rgb_eqb c bgc && String.eqb s (markerToken k) && sameQ x mx
  | _, _ => false
  end.

(** Content is accepted when the pending token has its kind and its y. *)
Definition acceptsContent (mo : Monitor) (k : MarkerKind) (y : Q) : bool :=
  match mon_pending mo with
  | Some (k0, y0) => kind_eqb k0 k && sameQ y0 y
  | None => false
  end.

(** Other text is accepted on the line of the pending token, or anywhere
    when nothing is pending. *)
Definition acceptsOther (mo : Monitor) (y : Q) : bool :=
  match mon_pending mo with
  | Some (_, y0) => sameQ y0 y
  | None => true
  end.

Definition guard (b : bool) (mo : Monitor) : option Monitor :=
  if b then Some mo else None.

Definition monitorStep (bgc : RGB) (mx : Q) (mo : Monitor) (e : Event)
    : option Monitor :=
  match e with
  | SetTextColor c =>
      Some {| mon_color := Some c; mon_pending := mon_pending mo |}
  | Text (Ghost k) s x y =>
      guard (acceptsGhost bgc mx mo k s x)
        {| mon_color := mon_color mo; mon_pending := Some (k, y) |}
  | TextLines (Ghost _) _ _ _ | TextRight (Ghost _) _ _ _ => None
  | Text (Content k) _ _ y | TextLines (Content k) _ _ y
  | TextRight (Content k) _ _ y =>
      guard (acceptsContent mo k y)
        {| mon_color := mon_color mo; mon_pending := None |}
  | Text _ _ _ y | TextLines _ _ _ y | TextRight _ _ _ y =>
      guard (acceptsOther mo y) mo
  | AddPage =>
      guard (match mon_pending mo with None => true | Some _ => false end) mo
  | _ => Some mo
  end.

Fixpoint monitorRun (bgc : RGB) (mx : Q) (mo : Monitor) (doc : list Event)
    : option Monitor :=
  match doc with
  | [] => Some mo
  | e :: r =>
      match monitorStep bgc mx mo e with
      | Some mo' => monitorRun bgc mx mo' r
      | None => None
      end
  end.

Definition monitorStart : Monitor :=
  {| mon_color := None; mon_pending := None |}.

(** ** The diamond as the specification words it *)

(** Triangles A and B of the top petal. *)
Definition topTriangleA (cx cy size : Q) : Point * Point * Point :=
  ((cx, cy - size), (cx - 0.3 * size, cy - 0.3 * size), (cx, cy)).

Definition topTriangleB (cx cy size : Q) : Point * Point * Point :=
  ((cx, cy - size), (cx + 0.3 * size, cy - 0.3 * size), (cx, cy)).

(** A quarter turn about [(cx, cy)] that takes the top tip to the right tip
    (the y axis of a page points down). *)
Definition quarterTurn (cx cy : Q) (p : Point) : Point :=
  (cx - (snd p - cy), cy + (fst p - cx)).

Definition turnTriangle (cx cy : Q) (t : Point * Point * Point)
    : Point * Point * Point :=
  match t with
  | (a, b, c) => (quarterTurn cx cy a, quarterTurn cx cy b, quarterTurn cx cy c)
  end.

Definition verticesOf (e : Event) : option (Point * Point * Point) :=
  match e with
  | Triangle x1 y1 x2 y2 x3 y3 => Some ((x1, y1), (x2, y2), (x3, y3))
  | _ => None
  end.

Definition samePoint (p q : Point) : Prop :=
  fst p == fst q /\ snd p == snd q.

Definition sameTriangle (e : Event) (t : Point * Point * Point) : Prop :=
  match verticesOf e, t with
  | Some (a, b, c), (a', b', c') =>
      samePoint a a' /\ samePoint b b' /\ samePoint c c'
  | None, _ => False
  end.

(** ** Sample inputs *)

(** The theme of [Creative Designer]; its bullet character is U+2605. *)
Definition themeCreative : Theme :=
  {| theme_name := "Creative Designer";
     margin := 15;
     spacing :=
       {| h1MarginBottom := 4; subHeaderMarginBottom := 12;
          h2MarginTop := 12; h2MarginBottom := 6; h3MarginTop := 8;
          jobHeaderMarginBottom := 4; ulMarginBottom := 10;
          liMarginBottom := 3; sectionMarginBottom := 16 |};
     fonts :=
       {| fonts_h1 := 22; fonts_subHeader := 8; fonts_h2 := 10;
          fonts_h3 := 9; fonts_li := 8.5; fonts_body := 9 |};
     lineHeights := {| lineHeights_li := 1.5; lineHeights_body := 1.4 |};
     colors :=
       {| colors_bg := (255, 255, 255)%Z;
          colors_name := (139, 92, 246)%Z;
          colors_role := (107, 114, 128)%Z;
          colors_heading := (139, 92, 246)%Z;
          colors_text := (55, 65, 81)%Z;
          colors_prefixGreen := None;
          colors_prefixGray := None;
          colors_bulletColor := Some (139, 92, 246)%Z |};
     prefixes :=
       {| prefixes_h1 := ""; prefixes_subHeader := ""; prefixes_h2 := "";
          prefixes_h3 := ""; prefixes_jobMeta := "";
          prefixes_bullet :=
            String "226" (String "152" (String "133" EmptyString)) |};
     images :=
       Some {| headerBar := "/static/images/pdf/creative-header-bar.png";
               sectionBar := "/static/images/pdf/creative-section-bar.png";
               headerBarHeight := 1; sectionBarWidth := 1.25;
               sectionBarHeight := 3.5; sectionBarOffset := -2.5 |} |}.

(** A backend with fixed-pitch glyphs two units wide that never wraps, a
    [toUpperCase] that leaves its argument alone, and no image available. *)
Definition fixedWidth (doc : list Event) (s : string) : Q :=
  2 * inject_Z (Z.of_nat (String.length s)).

Definition oneLine (doc : list Event) (s : string) (maxWidth : Q)
    : list string := [s].

Definition sameCase (s : string) : string := s.

Definition noImage (path : string) : option string := None.

Definition sampleSections : list SectionData :=
  [ Header "Jane Doe" "jane@x.com"; BulletSection "Skills" ["A"; "B"] ].

(** The words placed by [renderInlineBold], in order: text, x, y. *)
Fixpoint wordsOf (doc : list Event) : list (string * Q * Q) :=
  match doc with
  | [] => []
  | Text Word s x y :: r => (s, x, y) :: wordsOf r
  | _ :: r => wordsOf r
  end.

(** All pieces put together again. *)
Definition joinAll (cs : list string) : string :=
  fold_right String.append EmptyString cs.

(** ** Reasoning about the composer *)

(** [wp m Q st]: running [m] from [st] ends in a result and a state that
    satisfy [Q]. *)
Definition wp {A : Type} (m : M A) (Q : A -> State -> Prop) (st : State)
    : Prop :=
  Q (fst (m st)) (snd (m st)).

(** The monitor accepts the log [doc] and ends in [mo]. *)
Definition tracks (theme : Theme) (doc : list Event) (mo : Monitor) : Prop :=
  monitorRun (bg theme) (margin theme) monitorStart doc = Some mo.

(** No ghost token waits for its content. *)
Definition idle (theme : Theme) (st : State) : Prop :=
  exists c,
    tracks theme (st_doc st) {| mon_color := c; mon_pending := None |}.

(** The ghost token of kind [k] placed at height [y] waits for its
    content. *)
Definition waiting (theme : Theme) (k : MarkerKind) (y : Q) (st : State)
    : Prop :=
  exists c,
    tracks theme (st_doc st)
      {| mon_color := c; mon_pending := Some (k, y) |}.

(** [m] only appends to the log, and what it appends satisfies [p]. *)
Definition emitsOnly {A : Type} (p : Event -> bool) (m : M A) : Prop :=
  forall st,
    exists blk,
      st_doc (snd (m st)) = (st_doc st ++ blk)%list /\ forallb p blk = true.

Definition anyEvent (e : Event) : bool := true.

Definition notCheck (e : Event) : bool := negb (isCheck e).

(** ** Writing markup *)

(** No character of [s] is a star. *)
Fixpoint starFree (s : string) : bool :=
  match s with
  | EmptyString => true
  | String c r => negb (isStar c) && starFree r
  end.

(** The markup of a segment sequence: bold texts between [**] pairs, the
    others as they are. *)
Fixpoint toMarkup (segments : list Segment) : string :=
  match segments with
  | [] => EmptyString
  | seg :: rest =>
      if seg_bold seg
      then "**" ++ seg_text seg ++ "**" ++ toMarkup rest
      else seg_text seg ++ toMarkup rest
  end.

(** Segment sequences the parser can return for star-free texts: no text is
    empty or holds a star, and two normal segments are never neighbours (the
    parser would read them as one). *)
Fixpoint canonical (segments : list Segment) : bool :=
  match segments with
  | [] => true
  | seg :: rest =>
      truthy (seg_text seg) && starFree (seg_text seg)
      && match rest with
         | next :: _ => seg_bold seg || seg_bold next
         | [] => true
         end
      && canonical rest
  end.

(** ** Reading the log of the inline bold renderer *)

(** The words of a segment put together again: a space after every word but
    the last. *)
Fixpoint rejoin (words : list string) : string :=
  match words with
  | [] => EmptyString
  | word :: rest =>
      match rest with
      | [] => word
      | _ :: _ => word ++ " " ++ rejoin rest
      end
  end.

(** The texts of the words placed, one after the other. *)
Definition wordTexts (doc : list Event) : string :=
  joinAll (map (fun w => fst (fst w)) (wordsOf doc)).

(** Every text of a log with the text colour in effect when it is drawn;
    [c] is the colour in effect at the start. *)
Fixpoint inked (c : option RGB) (doc : list Event)
    : list (Site * option RGB) :=
  match doc with
  | [] => []
  | SetTextColor c' :: r => inked (Some c') r
  | Text site _ _ _ :: r => (site, c) :: inked c r
  | TextLines site _ _ _ :: r => (site, c) :: inked c r
  | TextRight site _ _ _ :: r => (site, c) :: inked c r
  | _ :: r => inked c r
  end.

(** Words are drawn in the text colour, [**] markers in the background
    colour. *)
Definition inlineInk (theme : Theme) (entry : Site * option RGB) : Prop :=
  match fst entry with
  | Word => snd entry = Some (colors_text (colors theme))
  | BoldMarker => snd entry = Some (colors_bg (colors theme))
  | _ => True
  end.

(** The number of [**] markers drawn. *)
Fixpoint countMarkers (doc : list Event) : nat :=
  match doc with
  | [] => O
  | Text BoldMarker _ _ _ :: r => S (countMarkers r)
  | _ :: r => countMarkers r
  end.

(** The number of bold segments. *)
Definition countBold (segments : list Segment) : nat :=
  List.length (filter seg_bold segments).

(** The number of words of a segment sequence. *)
Definition countWords (segments : list Segment) : nat :=
  fold_right
    (fun seg n => (List.length (split " " (seg_text seg)) + n)%nat)
    O segments.

(** What [renderWord] appends to the log for a word placed at [(px, py)]
    with width [w]. *)
Definition wordBlock (theme : Theme) (fontFamily : string)
    (segment : Segment) (nwords : nat) (word : string) (idx : nat)
    (px py w : Q) : list Event :=
  ([ SetFont fontFamily (if seg_bold segment then "bold" else "normal") ]
   ++ (if seg_bold segment && (idx =? 0)%nat
       then [ SetTextColor (colors_bg (colors theme));
              Text BoldMarker "**" px py ]
       else [])
   ++ [ SetTextColor (colors_text (colors theme));
        Text Word
          (if isBefore idx (lastIndex nwords) then word ++ " " else word)
          px py ]
   ++ (if seg_bold segment && isAt idx (lastIndex nwords)
       then [ SetTextColor (colors_bg (colors theme));
              Text BoldMarker "**" (px + w) py ]
       else []))%list.

(** ** Reading the log of a render *)

(** [m] only appends to the log, and the block it appends satisfies [P]. *)
Definition emitsBlock {A : Type} (P : list Event -> Prop) (m : M A) : Prop :=
  forall st,
    exists blk, st_doc (snd (m st)) = (st_doc st ++ blk)%list /\ P blk.

(** A font selection by one of the two family names of [themeFonts] and one
    of the two styles. *)
Definition knownFamily (family : FontName) : bool :=
  match family with
  | Family name => String.eqb name "Inter" || String.eqb name "JetBrainsMono"
  | Inherited _ => false
  end.

Definition knownFont (e : Event) : bool :=
  match e with
  | SetFont family style =>
      knownFamily family
      && (String.eqb style "normal" || String.eqb style "bold")
  | _ => true
  end.

Definition notImage (e : Event) : bool :=
  match e with
  | AddImage _ _ _ _ _ => false
  | _ => true
  end.

Definition notSave (e : Event) : bool :=
  match e with
  | Save _ => false
  | _ => true
  end.

Definition notAddPage (e : Event) : bool :=
  match e with
  | AddPage => false
  | _ => true
  end.

(** The two calls that paint the page background come next. *)
Definition fillNext (bgc : RGB) (doc : list Event) : bool :=
  match doc with
  | SetFillColor c :: Rect x y w h :: _ =>
      rgb_eqb c bgc && sameQ x 0 && sameQ y 0 && sameQ w pageWidth
      && sameQ h pageHeight
  | _ => false
  end.

(** Every page added comes right after an entry into [checkPageOverflow]
    and is painted at once; [prev] is the call before [doc]. *)
Fixpoint pagesFrom (bgc : RGB) (prev : option Event) (doc : list Event)
    : bool :=
  match doc with
  | [] => true
  | e :: r =>
      match e with
      | AddPage =>
          match prev with
          | Some (CheckPageOverflow _) => fillNext bgc r
          | _ => false
          end
      | _ => true
      end
      && pagesFrom bgc (Some e) r
  end.

(** The calls of a log before its first marked text. *)
Fixpoint untilMarked (doc : list Event) : list Event :=
  match doc with
  | [] => []
  | e :: r => if marked e then [] else e :: untilMarked r
  end.

(** A call that stays on the page and, when it draws text, on the line
    [y]. *)
Definition staysOnLine (y : Q) (e : Event) : bool :=
  match e with
  | AddPage => false
  | Text _ _ _ y' | TextLines _ _ _ y' | TextRight _ _ _ y' => sameQ y y'
  | _ => true
  end.

Definition countGhosts (doc : list Event) : nat :=
  List.length (filter (fun e => match ghostOf e with
                                | Some _ => true
                                | None => false
                                end) doc).

Definition countContents (doc : list Event) : nat :=
  List.length (filter (fun e => match contentOf e with
                                | Some _ => true
                                | None => false
                                end) doc).

(** Whether the branch of [renderSection] for this section draws
    anything: an unknown [section.type] matches no branch. *)
Definition knownSection (section : SectionData) : bool :=
  match section with
  | OtherSection _ => false
  | _ => true
  end.

(** Every corner of a triangle lies in the box [x0..x1] by [y0..y1]. *)
Definition triangleWithin (x0 x1 y0 y1 : Q) (e : Event) : Prop :=
  match e with
  | Triangle xa ya xb yb xc yc =>
      (x0 <= xa <= x1 /\ y0 <= ya <= y1)
      /\ (x0 <= xb <= x1 /\ y0 <= yb <= y1)
      /\ (x0 <= xc <= x1 /\ y0 <= yc <= y1)
  | _ => True
  end.

(** A document whose bullet list is longer than a page. *)
Definition longSections : list SectionData :=
  [ Header "Jane Doe" "jane@x.com"; BulletSection "Skills" (repeat "A" 60) ].

(** ** The top margin *)

(** A text drawn at or below the height [m]. *)
Definition belowTop (m : Q) (e : Event) : Prop :=
  match e with
  | Text _ _ _ y | TextLines _ _ _ y | TextRight _ _ _ y => m <= y
  | _ => True
  end.

(** The sizes and gaps by which the composer moves [y] down outside the
    jobs of an experience section are not negative. *)
Definition downward (theme : Theme) : Prop :=
  Forall (Qle 0)
    [ h1MarginBottom (spacing theme);
      subHeaderMarginBottom (spacing theme);
      h2MarginTop (spacing theme);
      h2MarginBottom (spacing theme);
      liMarginBottom (spacing theme);
      fonts_h1 (fonts theme);
      fonts_subHeader (fonts theme);
      fonts_h2 (fonts theme);
      lineHeight theme (fonts_li (fonts theme))
        (lineHeights_li (lineHeights theme));
      lineHeight theme (fonts_body (fonts theme))
        (lineHeights_body (lineHeights theme)) ]
  /\ match images theme with
     | Some img => 0 <= headerBarHeight img
     | None => True
     end.

(** A section that renders no job: [theme.spacing.sectionMarginBottom],
    which only some themes define, is read after each job and nowhere
    else. *)
Definition jobless (section : SectionData) : bool :=
  match section with
  | Experience _ (_ :: _) => false
  | _ => true
  end.

(** The theme with [v] for [spacing.sectionMarginBottom]. *)
Definition withSectionMarginBottom (v : Q) (theme : Theme) : Theme :=
  {| theme_name := theme_name theme;
     margin := margin theme;
     spacing :=
       {| h1MarginBottom := h1MarginBottom (spacing theme);
          subHeaderMarginBottom := subHeaderMarginBottom (spacing theme);
          h2MarginTop := h2MarginTop (spacing theme);
          h2MarginBottom := h2MarginBottom (spacing theme);
          h3MarginTop := h3MarginTop (spacing theme);
          jobHeaderMarginBottom := jobHeaderMarginBottom (spacing theme);
          ulMarginBottom := ulMarginBottom (spacing theme);
          liMarginBottom := liMarginBottom (spacing theme);
          sectionMarginBottom := v |};
     fonts := fonts theme;
     lineHeights := lineHeights theme;
     colors := colors theme;
     prefixes := prefixes theme;
     images := images theme |}.

(** [y] is at or below the top margin, and so is every text drawn so
    far. *)
Definition topOk (theme : Theme) (st : State) : Prop :=
  margin theme <= st_y st
  /\ Forall (belowTop (margin theme)) (st_doc st).

(** * Properties *)

Local Open Scope list_scope.

(** ** Numbers and logs *)

Lemma Qgtb_true (a b : Q) : Qgtb a b = true <-> b < a.
Proof.
  unfold Qgtb. rewrite negb_true_iff.
  destruct (Qle_bool a b) eqn:E.
  - apply Qle_bool_iff in E. split; [discriminate | lra].
  - split; [intros _ | reflexivity].
    destruct (Qlt_le_dec b a) as [H | H]; [exact H |].
    apply Qle_bool_iff in H. congruence.
Qed.

Lemma Qgtb_false (a b : Q) : Qgtb a b = false <-> a <= b.
Proof.
  unfold Qgtb. rewrite negb_false_iff. apply Qle_bool_iff.
Qed.

Lemma pageIndex_app (l1 l2 : list Event) :
  pageIndex (l1 ++ l2) = (pageIndex l1 + pageIndex l2)%nat.
Proof.
  induction l1 as [| e l1 IH]; [reflexivity |].
  destruct e; simpl; rewrite IH; reflexivity.
Qed.

(** The log after [checkPageOverflow] starts with the entry into it. *)
Lemma checkPageOverflow_log (theme : Theme) (requiredSpace : Q)
    (st : State) :
  exists rest,
    st_doc (snd (checkPageOverflow theme requiredSpace st))
    = st_doc st ++ CheckPageOverflow requiredSpace :: rest.
Proof.
  unfold checkPageOverflow, addNewPage, bind, emit, getY, setY, ret. simpl.
  destruct (Qgtb _ _); simpl; eexists; repeat rewrite <- app_assoc;
    reflexivity.
Qed.

(** ** Unit conversions *)

(** C6: the three conversions are the linear maps [v * 25.4/96],
    [s * 25.4/72] and [fontSize * lh * 25.4/72]; doubling an argument doubles
    the result; [pt 18] is 6.35; [px 4] is [4 * 25.4/96], which lies within
    0.0001 of 1.0583. *)
Theorem unit_conversions_linear (theme : Theme) (v s fontSize lh x : Q) :
  px theme v == v * (25.4 / 96)
  /\ pt theme s == s * (25.4 / 72)
  /\ lineHeight theme fontSize lh == fontSize * lh * (25.4 / 72)
  /\ px theme (2 * x) == 2 * px theme x
  /\ pt theme (2 * x) == 2 * pt theme x
  /\ lineHeight theme (2 * x) lh == 2 * lineHeight theme x lh
  /\ lineHeight theme fontSize (2 * x) == 2 * lineHeight theme fontSize x
  /\ pt theme 18 == 6.35
  /\ px theme 4 == 4 * 25.4 / 96
  /\ 1.0583 - 0.0001 < px theme 4 < 1.0583 + 0.0001.
Proof.
  unfold px, pt, lineHeight, PX_TO_MM, PT_TO_MM.
  repeat split; try ring; reflexivity.
Qed.

(** C10: the [theme] argument of the conversion helpers is inert. *)
Theorem conversions_ignore_theme (t1 t2 : Theme) (v fontSize lh : Q) :
  px t1 v = px t2 v
  /\ pt t1 v = pt t2 v
  /\ lineHeight t1 fontSize lh = lineHeight t2 fontSize lh.
Proof.
  repeat split.
Qed.

(** ** The diamond bullet *)

(** In the [Creative Designer] branch the bullet is the diamond of size 0.9
    anchored at [(margin + 6, y - 1)]. *)
Lemma drawBulletShape_diamond (theme : Theme) (st : State) :
  isTheme theme "Creative Designer" = true ->
  snd (drawBulletShape theme st)
  = {| st_y := st_y st;
       st_doc := st_doc st
                 ++ SetFillColor (bulletColor theme)
                    :: diamondTriangles (margin theme + 6) (st_y st - 1) 0.9 |}.
Proof.
  intros H. unfold drawBulletShape, bind, getY. rewrite H.
  unfold diamondTriangles, emit. simpl.
  repeat rewrite <- app_assoc. reflexivity.
Qed.

(** C7: the diamond is eight filled triangles, two per petal; the top petal
    is triangle A [(cx, cy-size), (cx-0.3size, cy-0.3size), (cx, cy)] and
    triangle B [(cx, cy-size), (cx+0.3size, cy-0.3size), (cx, cy)]; the
    right, bottom and left petals are that pair after one, two and three
    quarter turns about [(cx, cy)]; for size 0.9 at (21, 10) triangle A is
    (21, 9.1), (20.73, 9.73), (21, 10). *)
Theorem diamond_petals (cx cy size : Q) :
  let a := topTriangleA cx cy size in
  let b := topTriangleB cx cy size in
  let turn := turnTriangle cx cy in
  (exists a0 b0 a1 b1 a2 b2 a3 b3,
     diamondTriangles cx cy size = [a0; b0; a1; b1; a2; b2; a3; b3]
     /\ sameTriangle a0 a /\ sameTriangle b0 b
     /\ sameTriangle a1 (turn a) /\ sameTriangle b1 (turn b)
     /\ sameTriangle a2 (turn (turn a)) /\ sameTriangle b2 (turn (turn b))
     /\ sameTriangle a3 (turn (turn (turn a)))
     /\ sameTriangle b3 (turn (turn (turn b))))
  /\ sameTriangle (nth 0 (diamondTriangles 21 10 0.9) AddPage)
       ((21, 9.1), (20.73, 9.73), (21, 10)).
Proof.
  split.
  - do 8 eexists. split; [reflexivity |].
    unfold sameTriangle, samePoint; simpl.
    repeat split; ring.
  - unfold sameTriangle, samePoint; simpl. repeat split; reflexivity.
Qed.

(** ** Page overflow *)

(** C1: [checkPageOverflow] breaks the page exactly when
    [y + requiredSpace > pageHeight - margin]; on a break it adds a page,
    fills the page background again, sets [y] to the margin, raises the page
    index by one and returns [true]; otherwise it leaves [y] and the page
    index alone and returns [false]. *)
Theorem checkPageOverflow_breaks_iff (theme : Theme) (requiredSpace : Q)
    (st : State) :
  let r := checkPageOverflow theme requiredSpace st in
  (fst r = true <-> pageHeight - margin theme < st_y st + requiredSpace)
  /\ (fst r = true ->
      st_doc (snd r)
      = st_doc st
        ++ [ CheckPageOverflow requiredSpace; AddPage;
             SetFillColor (colors_bg (colors theme));
             Rect 0 0 pageWidth pageHeight ]
      /\ st_y (snd r) = margin theme
      /\ pageIndex (st_doc (snd r)) = S (pageIndex (st_doc st)))
  /\ (fst r = false ->
      st_doc (snd r) = st_doc st ++ [CheckPageOverflow requiredSpace]
      /\ st_y (snd r) = st_y st
      /\ pageIndex (st_doc (snd r)) = pageIndex (st_doc st)).
Proof.
  unfold checkPageOverflow, addNewPage, bind, emit, getY, setY, ret, bg.
  simpl.
  destruct (Qgtb (st_y st + requiredSpace) (pageHeight - margin theme)) eqn:E;
    simpl.
  - apply Qgtb_true in E. repeat split; auto; try discriminate.
    + repeat rewrite <- app_assoc. reflexivity.
    + repeat rewrite pageIndex_app. simpl. lia.
  - apply Qgtb_false in E. repeat split; auto; try discriminate.
    + intros H. lra.
    + rewrite pageIndex_app. simpl. lia.
Qed.

(** The sample theme at the bottom of a page breaks; in the middle of a page
    it does not. *)
Lemma checkPageOverflow_breaks_iff_witness :
  st_y (snd (checkPageOverflow themeCreative 30
               {| st_y := 270; st_doc := [] |})) = 15
  /\ st_y (snd (checkPageOverflow themeCreative 30
                  {| st_y := 100; st_doc := [] |})) = 100.
Proof.
  split.
  - apply (checkPageOverflow_breaks_iff themeCreative 30
             {| st_y := 270; st_doc := [] |}).
    reflexivity.
  - apply (checkPageOverflow_breaks_iff themeCreative 30
             {| st_y := 100; st_doc := [] |}).
    reflexivity.
Defined.

(** ** The inline bold parser *)

Lemma string_app_nil_r (s : string) : (s ++ "")%string = s.
Proof.
  induction s as [| c s IH]; simpl; [reflexivity | now rewrite IH].
Qed.

Lemma string_app_assoc (a b c : string) :
  ((a ++ b) ++ c)%string = (a ++ (b ++ c))%string.
Proof.
  induction a as [| x a IH]; simpl; [reflexivity | now rewrite IH].
Qed.

Lemma string_length_app (a b : string) :
  String.length (a ++ b) = (String.length a + String.length b)%nat.
Proof.
  induction a as [| x a IH]; simpl; [reflexivity | now rewrite IH].
Qed.

Lemma get_app_length (pre suf : string) (i : nat) :
  String.get (String.length pre + i) (pre ++ suf) = String.get i suf.
Proof.
  induction pre as [| x pre IH]; simpl; [reflexivity | exact IH].
Qed.

(** One step of the loop, by cases on what follows position [i]. *)
Lemma parseLoop_end (pre current : string) (inBold : bool)
    (segments : list Segment) :
  parseLoop pre (String.length pre) current inBold segments
  = pushIfAny segments current inBold.
Proof.
  rewrite parseLoop_equation_1.
  destruct (lt_dec (String.length pre) (String.length pre)) as [H | H];
    [lia | reflexivity].
Qed.

Lemma parseLoop_step (pre : string) (c : ascii) (r current : string)
    (inBold : bool) (segments : list Segment) :
  parseLoop (pre ++ String c r) (String.length pre) current inBold segments
  = if isStar c && match r with
                   | String c' _ => isStar c'
                   | EmptyString => false
                   end
    then parseLoop (pre ++ String c r) (String.length pre + 2) EmptyString
           (negb inBold) (pushIfAny segments current inBold)
    else parseLoop (pre ++ String c r) (String.length pre + 1)
           (current ++ String c EmptyString) inBold segments.
Proof.
  rewrite parseLoop_equation_1.
  destruct (lt_dec (String.length pre) (String.length (pre ++ String c r)))
    as [H | H].
  - assert (G0 : String.get (String.length pre) (pre ++ String c r) = Some c).
    { rewrite <- (Nat.add_0_r (String.length pre)) at 1.
      apply (get_app_length pre (String c r) 0). }
    assert (G1 : String.get (String.length pre + 1) (pre ++ String c r)
                 = String.get 0 r).
    { apply (get_app_length pre (String c r) 1). }
    simpl. unfold isStarAt, appendCharAt. rewrite G0, G1.
    destruct r; reflexivity.
  - exfalso. apply H. rewrite string_length_app. simpl. lia.
Qed.

(** Induction on strings that follows the scan: one character or one
    delimiter at a time. *)
Lemma string_scan_ind (P : string -> Prop) :
  P EmptyString ->
  (forall c, P (String c EmptyString)) ->
  (forall c c' r, P r -> P (String c' r) -> P (String c (String c' r))) ->
  forall s, P s.
Proof.
  intros H0 H1 H2 s.
  assert (G : P s /\ forall c, P (String c s)).
  { induction s as [| c' r [IH1 IH2]].
    - split; [exact H0 | exact H1].
    - split; [apply IH2 |]. intros c. apply H2; [exact IH1 | apply IH2]. }
  apply G.
Qed.

Lemma chunks_pair (c c' : ascii) (r : string) :
  chunks (String c (String c' r))
  = if isStar c && isStar c' then EmptyString :: chunks r
    else prependTo (String c EmptyString) (chunks (String c' r)).
Proof.
  reflexivity.
Qed.

Lemma prependTo_not_nil (a : string) (cs : list string) :
  prependTo a cs <> [].
Proof.
  destruct cs; discriminate.
Qed.

Lemma chunks_not_nil (s : string) : chunks s <> [].
Proof.
  induction s as [| c | c c' r IH1 IH2] using string_scan_ind;
    try (simpl; discriminate).
  rewrite chunks_pair. destruct (isStar c && isStar c'); [discriminate |].
  apply prependTo_not_nil.
Qed.

Lemma pushIfAny_app (segments : list Segment) (current : string)
    (inBold : bool) :
  pushIfAny segments current inBold = segments ++ pushIfAny [] current inBold.
Proof.
  unfold pushIfAny. destruct (truthy current); simpl;
    [reflexivity | now rewrite app_nil_r].
Qed.

Lemma prependTo_assoc (a b : string) (cs : list string) :
  cs <> [] -> prependTo (a ++ b) cs = prependTo a (prependTo b cs).
Proof.
  destruct cs as [| h t]; [contradiction |]. intros _. simpl.
  now rewrite string_app_assoc.
Qed.

(** The loop started at position [length pre] with buffer [current] yields
    the segments of the pieces of the rest, the first piece preceded by the
    buffer. *)
Lemma parseLoop_chunks (n : nat) :
  forall suf pre current inBold segments,
    (String.length suf <= n)%nat ->
    parseLoop (pre ++ suf) (String.length pre) current inBold segments
    = segments ++ segmentsOf inBold (prependTo current (chunks suf)).
Proof.
  induction n as [| n IH]; intros suf pre current inBold segments Hn.
  - destruct suf; [| simpl in Hn; lia].
    rewrite string_app_nil_r, parseLoop_end. simpl.
    rewrite string_app_nil_r, app_nil_r. apply pushIfAny_app.
  - destruct suf as [| c r].
    + rewrite string_app_nil_r, parseLoop_end. simpl.
      rewrite string_app_nil_r, app_nil_r. apply pushIfAny_app.
    + rewrite parseLoop_step. simpl in Hn.
      destruct r as [| c' r'].
      * rewrite andb_false_r.
        replace (pre ++ String c "")%string
          with ((pre ++ String c "") ++ "")%string
          by apply string_app_nil_r.
        replace (String.length pre + 1)%nat
          with (String.length (pre ++ String c "")).
        2:{ rewrite string_length_app. reflexivity. }
        rewrite IH by (simpl; lia). simpl.
        now rewrite !string_app_nil_r.
      * rewrite chunks_pair. destruct (isStar c && isStar c') eqn:E.
        -- replace (pre ++ String c (String c' r'))%string
             with ((pre ++ String c (String c' "")) ++ r')%string.
           2:{ rewrite string_app_assoc. reflexivity. }
           replace (String.length pre + 2)%nat
             with (String.length (pre ++ String c (String c' ""))).
           2:{ rewrite string_length_app. reflexivity. }
           rewrite IH by (simpl in *; lia).
           pose proof (chunks_not_nil r') as Hne.
           destruct (chunks r') as [| h t]; [contradiction |]. simpl.
           rewrite string_app_nil_r.
           rewrite (pushIfAny_app segments). now rewrite <- app_assoc.
        -- replace (pre ++ String c (String c' r'))%string
             with ((pre ++ String c "") ++ String c' r')%string.
           2:{ rewrite string_app_assoc. reflexivity. }
           replace (String.length pre + 1)%nat
             with (String.length (pre ++ String c "")).
           2:{ rewrite string_length_app. reflexivity. }
           rewrite IH by (simpl in *; lia).
           rewrite prependTo_assoc by apply chunks_not_nil. reflexivity.
Qed.

(** The parser returns the pieces of its input with alternating flags,
    empty pieces left out. *)
Lemma parseInlineBold_chunks (s : string) :
  parseInlineBold s = segmentsOf false (chunks s).
Proof.
  unfold parseInlineBold.
  pose proof (parseLoop_chunks (String.length s) s "" "" false []
                (Nat.le_refl _)) as H.
  simpl in H. rewrite H.
  pose proof (chunks_not_nil s) as Hne.
  destruct (chunks s); [contradiction | reflexivity].
Qed.

Lemma joinAll_prependTo (a : string) (cs : list string) :
  joinAll (prependTo a cs) = (a ++ joinAll cs)%string.
Proof.
  destruct cs as [| h t]; simpl; [reflexivity | apply string_app_assoc].
Qed.

Lemma joinAll_chunks (s : string) : joinAll (chunks s) = stripDelims s.
Proof.
  induction s as [| c | c c' r IH1 IH2] using string_scan_ind;
    try reflexivity.
  rewrite chunks_pair.
  change (stripDelims (String c (String c' r)))
    with (if isStar c && isStar c' then stripDelims r
          else String c (stripDelims (String c' r))).
  destruct (isStar c && isStar c').
  - simpl. exact IH1.
  - rewrite joinAll_prependTo, IH2. reflexivity.
Qed.

Lemma concatTexts_app (l1 l2 : list Segment) :
  concatTexts (l1 ++ l2) = (concatTexts l1 ++ concatTexts l2)%string.
Proof.
  induction l1 as [| g l1 IH]; simpl; [reflexivity |].
  rewrite IH. symmetry. apply string_app_assoc.
Qed.

Lemma concatTexts_segmentsOf (b : bool) (cs : list string) :
  concatTexts (segmentsOf b cs) = joinAll cs.
Proof.
  revert b. induction cs as [| h t IH]; intros b; simpl; [reflexivity |].
  rewrite concatTexts_app, IH. unfold pushIfAny.
  destruct h; simpl; [reflexivity | now rewrite string_app_nil_r].
Qed.

(** Whatever the number of delimiters, the segment texts add up to the input
    without its delimiters. *)
Lemma parse_concat_strip (s : string) :
  concatTexts (parseInlineBold s) = stripDelims s.
Proof.
  rewrite parseInlineBold_chunks, concatTexts_segmentsOf.
  apply joinAll_chunks.
Qed.

(** C5: for an input with an even number of [**] delimiters the segment
    texts, concatenated, are the input with every [**] removed; the empty
    input gives the empty segment sequence. *)
Theorem parse_lossless :
  (forall s : string,
      Nat.even (countDelims s) = true ->
      concatTexts (parseInlineBold s) = stripDelims s)
  /\ parseInlineBold EmptyString = [].
Proof.
  split; [| reflexivity].
  intros s _. apply parse_concat_strip.
Qed.

Lemma parse_lossless_witness :
  Nat.even (countDelims "ab **cd** ef") = true
  /\ concatTexts (parseInlineBold "ab **cd** ef") = "ab cd ef".
Proof.
  split; [reflexivity |].
  apply (proj1 parse_lossless "ab **cd** ef"). reflexivity.
Defined.

Lemma length_prependTo (a : string) (cs : list string) :
  cs <> [] -> List.length (prependTo a cs) = List.length cs.
Proof.
  destruct cs; [contradiction | reflexivity].
Qed.

Lemma length_chunks (s : string) :
  List.length (chunks s) = S (countDelims s).
Proof.
  induction s as [| c | c c' r IH1 IH2] using string_scan_ind;
    try reflexivity.
  rewrite chunks_pair.
  change (countDelims (String c (String c' r)))
    with (if isStar c && isStar c' then S (countDelims r)
          else countDelims (String c' r)).
  destruct (isStar c && isStar c').
  - simpl. now rewrite IH1.
  - rewrite length_prependTo by apply chunks_not_nil. exact IH2.
Qed.






(** ** The inline bold renderer *)

Lemma wordsOf_app (l1 l2 : list Event) :
  wordsOf (l1 ++ l2) = wordsOf l1 ++ wordsOf l2.
Proof.
  induction l1 as [| e l1 IH]; [reflexivity |].
  destruct e as [| | | | | | site | | | | | | | | |]; simpl; try exact IH.
  destruct site; simpl; rewrite ?IH; reflexivity.
Qed.

Section InlineFlow.

Variable getTextWidth : list Event -> string -> Q.
Variable theme : Theme.
Variables x rightEdge : Q.
Variable fontFamily : string.

(** The text drawn for the word at index [idx] of [nwords]. *)
Let textToRender (nwords : nat) (word : string) (idx : nat) : string :=
  if isBefore idx (lastIndex nwords) then (word ++ " ")%string else word.

(** Its width, measured after the font of the segment has been selected. *)
Let textWidth (segment : Segment) (nwords : nat) (word : string) (idx : nat)
    (fl : Flow) : Q :=
  getTextWidth
    (flow_doc fl
     ++ [SetFont fontFamily (if seg_bold segment then "bold" else "normal")])
    (textToRender nwords word idx).

Let lineAdvance : Q :=
  lineHeight theme (fonts_li (fonts theme)) (lineHeights_li (lineHeights theme)).

(** One word: where it is placed and where the pen is afterwards. *)
Lemma renderWord_places (segment : Segment) (nwords : nat) (word : string)
    (idx : nat) (fl : Flow) :
  let w := textWidth segment nwords word idx fl in
  let wrap := Qgtb (currentX fl + w) rightEdge && Qgtb (currentX fl) x in
  let px := if wrap then x else currentX fl in
  let py := if wrap then currentY fl + lineAdvance else currentY fl in
  let fl' :=
    renderWord getTextWidth theme x rightEdge fontFamily segment nwords word
      idx fl in
  wordsOf (flow_doc fl')
  = wordsOf (flow_doc fl) ++ [(textToRender nwords word idx, px, py)]
  /\ currentX fl' = px + w
  /\ currentY fl' = py.
Proof.
  unfold renderWord, textWidth, textToRender, lineAdvance, draw. simpl.
  destruct (Qgtb _ rightEdge && Qgtb (currentX fl) x);
    destruct (seg_bold segment && (idx =? 0)%nat);
    destruct (seg_bold segment && isAt idx (lastIndex nwords));
    simpl; rewrite !wordsOf_app; simpl; rewrite ?app_nil_r;
    repeat split; reflexivity.
Qed.

(** The width function returns lengths, and the start column is not beyond
    the right edge. *)
Hypothesis Hx : x <= rightEdge.
Hypothesis Hw : forall doc s, 0 <= getTextWidth doc s.

Variable doc0 : list Event.

(** The pen is not left of the start column, and every word placed since
    [doc0] starts at or before the right edge. *)
Let FlowOk (fl : Flow) : Prop :=
  x <= currentX fl
  /\ forall s wx wy,
       In (s, wx, wy) (wordsOf (flow_doc fl)) ->
       In (s, wx, wy) (wordsOf doc0) \/ wx <= rightEdge.

Lemma renderWord_ok (segment : Segment) (nwords : nat) (word : string)
    (idx : nat) (fl : Flow) :
  FlowOk fl ->
  FlowOk (renderWord getTextWidth theme x rightEdge fontFamily segment nwords
            word idx fl).
Proof.
  intros [Hpen Hwords].
  destruct (renderWord_places segment nwords word idx fl) as (Hd & Hcx & Hcy).
  pose proof (Hw (flow_doc fl
                  ++ [SetFont fontFamily
                        (if seg_bold segment then "bold" else "normal")])
                (textToRender nwords word idx)) as Hnn.
  fold (textWidth segment nwords word idx fl) in Hnn.
  set (w := textWidth segment nwords word idx fl) in *.
  destruct (Qgtb (currentX fl + w) rightEdge && Qgtb (currentX fl) x) eqn:E;
    split.
  - rewrite Hcx. lra.
  - intros s wx wy Hin. rewrite Hd in Hin. apply in_app_or in Hin.
    destruct Hin as [Hin | [Hin | []]]; [now apply Hwords |].
    inversion Hin; subst. right. exact Hx.
  - rewrite Hcx. lra.
  - intros s wx wy Hin. rewrite Hd in Hin. apply in_app_or in Hin.
    destruct Hin as [Hin | [Hin | []]]; [now apply Hwords |].
    inversion Hin; subst. right.
    apply andb_false_iff in E. destruct E as [E | E]; apply Qgtb_false in E;
      lra.
Qed.

Lemma forEachWord_ok (segment : Segment) (nwords : nat)
    (words : list string) :
  forall idx fl,
    FlowOk fl ->
    FlowOk (forEachWord
              (renderWord getTextWidth theme x rightEdge fontFamily segment
                 nwords) words idx fl).
Proof.
  induction words as [| word rest IH]; intros idx fl Hok; [exact Hok |].
  simpl. apply IH. now apply renderWord_ok.
Qed.

Lemma renderSegments_ok (segments : list Segment) :
  forall fl,
    FlowOk fl ->
    FlowOk (renderSegments getTextWidth theme x rightEdge fontFamily segments
              fl).
Proof.
  induction segments as [| segment rest IH]; intros fl Hok; [exact Hok |].
  unfold renderSegments in *. simpl. apply IH.
  unfold renderSegment. now apply forEachWord_ok.
Qed.

End InlineFlow.

(** C4: with a width function that returns lengths and a start column not
    beyond the right edge [pageWidth - margin], no word placed by the inline
    bold renderer starts to the right of the right edge, the over-wide word
    at the start of a line included; and a word is preceded by a line break
    (y advanced by one line advance, x reset to the start column) exactly
    when it would cross the right edge and the pen has already moved right
    of the start column. *)
Theorem inline_words_within_right_edge
    (getTextWidth : list Event -> string -> Q) (theme : Theme)
    (x pageWidth margin : Q) (fontFamily : string)
    (Hx : x <= pageWidth - margin)
    (Hw : forall doc s, 0 <= getTextWidth doc s)
    (y : Q) (doc : list Event) :
  let rightEdge := pageWidth - margin in
  let start := {| currentX := x; currentY := y; flow_doc := doc |} in
  let adv :=
    lineHeight theme (fonts_li (fonts theme))
      (lineHeights_li (lineHeights theme)) in
  (forall segments s wx wy,
      In (s, wx, wy)
        (wordsOf (flow_doc (renderSegments getTextWidth theme x rightEdge
                              fontFamily segments start))) ->
      In (s, wx, wy) (wordsOf doc) \/ wx <= rightEdge)
  /\ (forall text maxWidth s wx wy,
        In (s, wx, wy)
          (wordsOf (snd (renderInlineBold getTextWidth doc text x y theme
                           maxWidth pageWidth margin fontFamily))) ->
        In (s, wx, wy) (wordsOf doc) \/ wx <= rightEdge)
  /\ (forall segment nwords word idx fl,
        let t := if isBefore idx (lastIndex nwords)
                 then (word ++ " ")%string else word in
        let w :=
          getTextWidth
            (flow_doc fl
             ++ [SetFont fontFamily
                   (if seg_bold segment then "bold" else "normal")]) t in
        let fl' :=
          renderWord getTextWidth theme x rightEdge fontFamily segment nwords
            word idx fl in
        (rightEdge < currentX fl + w /\ x < currentX fl ->
         wordsOf (flow_doc fl')
         = wordsOf (flow_doc fl) ++ [(t, x, currentY fl + adv)]
         /\ currentX fl' = x + w
         /\ currentY fl' = currentY fl + adv)
        /\ (~ (rightEdge < currentX fl + w /\ x < currentX fl) ->
            wordsOf (flow_doc fl')
            = wordsOf (flow_doc fl) ++ [(t, currentX fl, currentY fl)]
            /\ currentX fl' = currentX fl + w
            /\ currentY fl' = currentY fl)).
Proof.
  intros rightEdge start adv.
  assert (Hseg : forall segments s wx wy,
             In (s, wx, wy)
               (wordsOf (flow_doc (renderSegments getTextWidth theme x
                                     rightEdge fontFamily segments start))) ->
             In (s, wx, wy) (wordsOf doc) \/ wx <= rightEdge).
  { intros segments.
    apply (renderSegments_ok getTextWidth theme x rightEdge fontFamily Hx Hw
             doc segments).
    split; simpl; [lra | auto]. }
  split; [exact Hseg |]. split.
  - intros text maxWidth. unfold renderInlineBold. simpl. apply Hseg.
  - intros segment nwords word idx fl.
    pose proof (renderWord_places getTextWidth theme x rightEdge fontFamily
                  segment nwords word idx fl) as H.
    simpl in H. simpl.
    destruct (Qgtb _ rightEdge && Qgtb (currentX fl) x) eqn:E.
    + apply andb_true_iff in E. destruct E as [E1 E2].
      apply Qgtb_true in E1, E2. split; [intros _; exact H |].
      intros Hn. exfalso. apply Hn. split; assumption.
    + split; [| intros _; exact H].
      intros [H1 H2]. apply Qgtb_true in H1, H2.
      rewrite H1, H2 in E. discriminate.
Qed.

Lemma fixedWidth_nonneg (doc : list Event) (s : string) :
  0 <= fixedWidth doc s.
Proof.
  unfold fixedWidth.
  assert (0 <= inject_Z (Z.of_nat (String.length s))).
  { change 0 with (inject_Z 0). rewrite <- Zle_Qle. lia. }
  lra.
Qed.

(** Start column 0, page width 30, margin 10, fixed-pitch glyphs. *)
Lemma inline_words_within_right_edge_witness :
  0 <= 30 - 10
  /\ forall s wx wy,
       In (s, wx, wy)
         (wordsOf (snd (renderInlineBold fixedWidth [] "ab **cd ef** gh ijkl"
                          0 0 themeCreative 20 30 10 "Inter"))) ->
       In (s, wx, wy) (wordsOf []) \/ wx <= 30 - 10.
Proof.
  assert (H : 0 <= 30 - 10) by discriminate.
  split; [exact H |].
  apply (proj1 (proj2 (inline_words_within_right_edge fixedWidth themeCreative
                         0 30 10 "Inter" H fixedWidth_nonneg 0 []))).
Defined.

(** ** The ghost tag monitor *)

Lemma sameQ_refl (a : Q) : sameQ a a = true.
Proof.
  apply Qeq_bool_iff. reflexivity.
Qed.

Lemma sameQ_true (a b : Q) : sameQ a b = true -> a == b.
Proof.
  apply Qeq_bool_iff.
Qed.

Lemma rgb_eqb_refl (c : RGB) : rgb_eqb c c = true.
Proof.
  destruct c as [[r g] b]. unfold rgb_eqb. now rewrite !Z.eqb_refl.
Qed.

Lemma rgb_eqb_true (a b : RGB) : rgb_eqb a b = true -> a = b.
Proof.
  destruct a as [[r1 g1] b1], b as [[r2 g2] b2]. unfold rgb_eqb.
  rewrite !andb_true_iff, !Z.eqb_eq. intros [[-> ->] ->]. reflexivity.
Qed.

Lemma kind_eqb_true (a b : MarkerKind) : kind_eqb a b = true -> a = b.
Proof.
  destruct a, b; simpl; intros H; try reflexivity; discriminate.
Qed.

Lemma kind_eqb_refl (a : MarkerKind) : kind_eqb a a = true.
Proof.
  destruct a; reflexivity.
Qed.

Lemma guard_some (b : bool) (mo mo' : Monitor) :
  guard b mo = Some mo' -> b = true /\ mo' = mo.
Proof.
  unfold guard. destruct b; intros H; [| discriminate].
  injection H as <-. auto.
Qed.

Section MonitorFacts.

Variable bgc : RGB.
Variable mx : Q.

Lemma monitorRun_app (l1 l2 : list Event) :
  forall mo,
    monitorRun bgc mx mo (l1 ++ l2)
    = match monitorRun bgc mx mo l1 with
      | Some mo' => monitorRun bgc mx mo' l2
      | None => None
      end.
Proof.
  induction l1 as [| e l1 IH]; intros mo; simpl; [reflexivity |].
  destruct (monitorStep bgc mx mo e); [apply IH | reflexivity].
Qed.

(** What one accepted step does to the colour. *)
Lemma step_color (mo mo' : Monitor) (e : Event) :
  monitorStep bgc mx mo e = Some mo' ->
  mon_color mo'
  = match e with
    | SetTextColor c => Some c
    | _ => mon_color mo
    end.
Proof.
  destruct e as [| | | | | | site | site | site | | | | | | |]; simpl;
    try (intros H; injection H as <-; reflexivity);
    try (destruct site; simpl; try discriminate;
         intros H; apply guard_some in H; destruct H as [_ ->]; reflexivity).
  intros H; apply guard_some in H; destruct H as [_ ->]; reflexivity.
Qed.

(** An accepted ghost token. *)
Lemma step_ghost (mo mo' : Monitor) (e : Event) (k : MarkerKind)
    (s : string) (x y : Q) :
  ghostOf e = Some (k, s, x, y) ->
  monitorStep bgc mx mo e = Some mo' ->
  e = Text (Ghost k) s x y
  /\ mon_color mo = Some bgc
  /\ mon_pending mo = None
  /\ s = markerToken k
  /\ x == mx
  /\ mon_pending mo' = Some (k, y).
Proof.
  destruct e as [| | | | | | site | site | site | | | | | | |];
    try discriminate.
  destruct site; try discriminate. simpl.
  intros Hg Hs. injection Hg as -> -> -> ->.
  apply guard_some in Hs. destruct Hs as [Ha ->]. simpl.
  unfold acceptsGhost in Ha.
  destruct (mon_color mo) as [c |]; [| discriminate].
  destruct (mon_pending mo); [discriminate |].
  apply andb_true_iff in Ha. destruct Ha as [Ha Hq].
  apply andb_true_iff in Ha. destruct Ha as [Hc Hstr].
  apply rgb_eqb_true in Hc. apply String.eqb_eq in Hstr.
  apply sameQ_true in Hq. subst. repeat split; auto.
Qed.

(** Accepted content. *)
Lemma step_content (mo mo' : Monitor) (e : Event) (k : MarkerKind)
    (x y : Q) :
  contentOf e = Some (k, x, y) ->
  monitorStep bgc mx mo e = Some mo' ->
  exists y0,
    mon_pending mo = Some (k, y0) /\ y0 == y /\ mon_pending mo' = None.
Proof.
  destruct e as [| | | | | | site | site | site | | | | | | |];
    try discriminate;
    (destruct site; try discriminate; simpl;
     intros Hc Hs; injection Hc as -> -> ->;
     apply guard_some in Hs; destruct Hs as [Ha ->]; simpl;
     unfold acceptsContent in Ha;
     destruct (mon_pending mo) as [[k0 y0] |]; [| discriminate];
     apply andb_true_iff in Ha; destruct Ha as [Hk Hq];
     apply kind_eqb_true in Hk; apply sameQ_true in Hq; subst;
     exists y0; auto).
Qed.

(** An accepted event that is neither keeps what is pending. *)
Lemma step_unmarked (mo mo' : Monitor) (e : Event) :
  marked e = false ->
  monitorStep bgc mx mo e = Some mo' ->
  mon_pending mo' = mon_pending mo.
Proof.
  destruct e as [| | | | | | site | site | site | | | | | | |]; simpl;
    try (intros _ H; injection H as <-; reflexivity);
    try (destruct site; simpl; try discriminate;
         intros _ H; apply guard_some in H; destruct H as [_ ->];
         reflexivity).
  intros _ H; apply guard_some in H; destruct H as [_ ->]; reflexivity.
Qed.

Lemma marked_cases (e : Event) :
  (exists k s x y, ghostOf e = Some (k, s, x, y))
  \/ (exists k x y, contentOf e = Some (k, x, y))
  \/ marked e = false.
Proof.
  unfold marked.
  destruct (ghostOf e) as [[[[k s] x] y] |] eqn:G.
  - left. now exists k, s, x, y.
  - destruct (contentOf e) as [[[k x] y] |] eqn:C.
    + right; left. now exists k, x, y.
    + right; right. reflexivity.
Qed.

Lemma marked_ghost (e : Event) k s x y :
  ghostOf e = Some (k, s, x, y) -> marked e = true.
Proof.
  unfold marked. now intros ->.
Qed.

Lemma marked_content (e : Event) k x y :
  contentOf e = Some (k, x, y) -> marked e = true.
Proof.
  unfold marked. intros ->. now destruct (ghostOf e).
Qed.

(** The colour the monitor holds is the text colour in effect. *)
Lemma monitor_color (l : list Event) :
  forall mo mo',
    monitorRun bgc mx mo l = Some mo' ->
    mon_color mo'
    = match textColor l with
      | Some c => Some c
      | None => mon_color mo
      end.
Proof.
  induction l as [| e r IH]; intros mo mo' H; simpl in *.
  - now injection H as <-.
  - destruct (monitorStep bgc mx mo e) as [mo1 |] eqn:S; [| discriminate].
    rewrite (IH _ _ H). destruct (textColor r); [reflexivity |].
    rewrite (step_color _ _ _ S). destruct e; reflexivity.
Qed.

(** A pending token is resolved by the next marked event, which is content
    of its kind on its line. *)
Lemma pending_resolved (l : list Event) :
  forall mo mo' k y0,
    monitorRun bgc mx mo l = Some mo' ->
    mon_pending mo = Some (k, y0) ->
    mon_pending mo' = None ->
    exists e x y,
      nextMarked l = Some e /\ contentOf e = Some (k, x, y) /\ y0 == y.
Proof.
  induction l as [| e r IH]; intros mo mo' k y0 H Hp Hn; simpl in *.
  - injection H as <-. congruence.
  - destruct (monitorStep bgc mx mo e) as [mo1 |] eqn:S; [| discriminate].
    destruct (marked_cases e) as [(k' & s & x & y & G) | [(k' & x & y & C) | U]].
    + destruct (step_ghost _ _ _ _ _ _ _ G S) as (_ & _ & Hnone & _).
      congruence.
    + destruct (step_content _ _ _ _ _ _ C S) as (y1 & Hp1 & Hq & _).
      rewrite Hp in Hp1. injection Hp1 as <- <-.
      rewrite (marked_content _ _ _ _ C). now exists e, x, y.
    + rewrite U. apply (IH mo1 mo' k y0 H); [| exact Hn].
      rewrite (step_unmarked _ _ _ U S). exact Hp.
Qed.

(** A pending token was placed by the last marked event, a ghost token of
    its kind at the left margin on its line. *)
Lemma pending_origin (l : list Event) :
  forall mo mo' k y0,
    monitorRun bgc mx mo l = Some mo' ->
    mon_pending mo' = Some (k, y0) ->
    (exists x,
        lastMarked l = Some (Text (Ghost k) (markerToken k) x y0) /\ x == mx)
    \/ (lastMarked l = None /\ mon_pending mo = Some (k, y0)).
Proof.
  induction l as [| e r IH]; intros mo mo' k y0 H Hp; simpl in *.
  - injection H as <-. right. auto.
  - destruct (monitorStep bgc mx mo e) as [mo1 |] eqn:S; [| discriminate].
    destruct (IH mo1 mo' k y0 H Hp) as [(x & HL & Hx) | [HL Hp1]].
    + left. exists x. rewrite HL. auto.
    + rewrite HL.
      destruct (marked_cases e) as [(k' & s & x & y & G) | [(k' & x & y & C) | U]].
      * destruct (step_ghost _ _ _ _ _ _ _ G S)
          as (-> & _ & _ & -> & Hx & Hp2).
        rewrite Hp1 in Hp2. injection Hp2 as <- <-.
        left. exists x. auto.
      * destruct (step_content _ _ _ _ _ _ C S) as (_ & _ & _ & Hn).
        congruence.
      * rewrite U. right. split; [reflexivity |].
        rewrite <- (step_unmarked _ _ _ U S). exact Hp1.
Qed.

End MonitorFacts.

(** ** The composer: rules *)

Arguments sameQ : simpl never.
Arguments rgb_eqb : simpl never.

Lemma wp_bind {A B : Type} (m : M A) (k : A -> M B)
    (Q : B -> State -> Prop) (st : State) :
  wp m (fun a st' => wp (k a) Q st') st -> wp (bind m k) Q st.
Proof.
  unfold wp, bind. destruct (m st) as [a st']. auto.
Qed.

Lemma wp_mono {A : Type} (m : M A) (R Q : A -> State -> Prop) (st : State) :
  wp m R st -> (forall a st', R a st' -> Q a st') -> wp m Q st.
Proof.
  unfold wp. auto.
Qed.

Lemma wp_ret {A : Type} (a : A) (Q : A -> State -> Prop) (st : State) :
  Q a st -> wp (ret a) Q st.
Proof.
  auto.
Qed.

Lemma wp_getY (Q : Q -> State -> Prop) (st : State) :
  Q (st_y st) st -> wp getY Q st.
Proof.
  auto.
Qed.

Lemma wp_setY (v : Q) (Q : unit -> State -> Prop) (st : State) :
  Q tt {| st_y := v; st_doc := st_doc st |} -> wp (setY v) Q st.
Proof.
  auto.
Qed.

Lemma wp_advance (d : Q) (Q : unit -> State -> Prop) (st : State) :
  Q tt {| st_y := st_y st + d; st_doc := st_doc st |} -> wp (advance d) Q st.
Proof.
  auto.
Qed.

Lemma wp_emit (e : Event) (Q : unit -> State -> Prop) (st : State) :
  Q tt {| st_y := st_y st; st_doc := st_doc st ++ [e] |} -> wp (emit e) Q st.
Proof.
  auto.
Qed.

Lemma wp_measure (w : list Event -> string -> Q) (s : string)
    (Q : Q -> State -> Prop) (st : State) :
  Q (w (st_doc st) s) st -> wp (measure w s) Q st.
Proof.
  auto.
Qed.

Lemma wp_splitToSize (f : list Event -> string -> Q -> list string)
    (s : string) (maxWidth : Q) (Q : list string -> State -> Prop)
    (st : State) :
  Q (f (st_doc st) s maxWidth) st -> wp (splitToSize f s maxWidth) Q st.
Proof.
  auto.
Qed.

Lemma tracks_snoc (theme : Theme) (doc : list Event) (mo mo' : Monitor)
    (e : Event) :
  tracks theme doc mo ->
  monitorStep (bg theme) (margin theme) mo e = Some mo' ->
  tracks theme (doc ++ [e]) mo'.
Proof.
  unfold tracks. intros H S. rewrite monitorRun_app, H. simpl. now rewrite S.
Qed.

(** A call on [doc] that the monitor accepts. *)
Lemma wp_emit_step (theme : Theme) (mo mo' : Monitor) (e : Event)
    (Q : unit -> State -> Prop) (st : State) :
  tracks theme (st_doc st) mo ->
  monitorStep (bg theme) (margin theme) mo e = Some mo' ->
  (tracks theme (st_doc st ++ [e]) mo' ->
   Q tt {| st_y := st_y st; st_doc := st_doc st ++ [e] |}) ->
  wp (emit e) Q st.
Proof.
  intros H S K. apply wp_emit, K. now apply tracks_snoc with mo.
Qed.

Ltac solve_step :=
  cbv beta iota delta
    [monitorStep guard acceptsGhost acceptsContent acceptsOther mon_color
       mon_pending markerToken];
  rewrite ?rgb_eqb_refl, ?sameQ_refl, ?kind_eqb_refl, ?String.eqb_refl;
  reflexivity.

(** One step of symbolic execution; [H] names the monitor fact of the
    current state. *)
Ltac wp_go H :=
  lazymatch goal with
  | |- wp (bind _ _) _ _ => apply wp_bind
  | |- wp (ret _) _ _ => apply wp_ret
  | |- wp getY _ _ => apply wp_getY
  | |- wp (advance _) _ _ => apply wp_advance
  | |- wp (setY _) _ _ => apply wp_setY
  | |- wp (measure _ _) _ _ => apply wp_measure
  | |- wp (splitToSize _ _ _) _ _ => apply wp_splitToSize
  | |- wp (emit ?e) _ _ =>
      eapply wp_emit_step; [ exact H | solve_step | clear H; intro H ]
  end;
  cbn beta; cbn [st_y st_doc] in *.

Ltac wp_run H := repeat wp_go H.

(** Close a branch: the monitor fact [H] is the assertion wanted. *)
Ltac wp_done H := wp_run H; first [exact H | eexists; exact H].

(** Join the branches of the component at hand in a state where the token
    recorded in [H] still waits, or where nothing waits. *)
Ltac wp_join_waiting theme H :=
  lazymatch type of H with
  | tracks _ _ {| mon_color := _; mon_pending := Some (?k, ?y) |} =>
      apply wp_mono with (R := fun _ st' => waiting theme k y st')
  end.

Ltac wp_join_idle theme :=
  apply wp_mono with (R := fun _ st' => idle theme st').

Section ComposerFacts.

Variable getTextWidth : list Event -> string -> Q.
Variable splitTextToSize : list Event -> string -> Q -> list string.
Variable toUpperCase : string -> string.
Variable theme : Theme.
Variable headerBarImage : option string.
Variable sectionBarImage : option string.

Lemma checkPageOverflow_idle (requiredSpace : Q) (st : State) :
  idle theme st ->
  wp (checkPageOverflow theme requiredSpace) (fun _ st' => idle theme st') st.
Proof.
  intros [c H]. unfold checkPageOverflow, addNewPage.
  do 4 wp_go H.
  destruct (Qgtb _ _); repeat wp_go H; eexists; exact H.
Qed.

Lemma drawCompactSectionBox_keeps (text : string) (x y : Q)
    (mo : Monitor) (st : State) :
  tracks theme (st_doc st) mo ->
  wp (drawCompactSectionBox theme text x y)
    (fun _ st' => tracks theme (st_doc st') mo) st.
Proof.
  intros H. unfold drawCompactSectionBox, when.
  destruct (isTheme theme "Compact Executive"); repeat wp_go H; exact H.
Qed.

Lemma drawSectionBar_keeps (mo : Monitor) (st : State) :
  tracks theme (st_doc st) mo ->
  wp (drawSectionBar theme sectionBarImage)
    (fun _ st' => tracks theme (st_doc st') mo) st.
Proof.
  intros H. unfold drawSectionBar.
  destruct sectionBarImage; destruct (images theme); wp_done H.
Qed.

Lemma drawBulletShape_waiting (c : option RGB) (y : Q) (st : State) :
  st_y st = y ->
  tracks theme (st_doc st)
    {| mon_color := c; mon_pending := Some (MkBullet, y) |} ->
  wp (drawBulletShape theme)
    (fun _ st' => waiting theme MkBullet y st') st.
Proof.
  intros <- H. unfold drawBulletShape. wp_run H.
  destruct (isTheme theme "Creative Designer").
  - unfold diamondTriangles. cbn [flat_map petalTriangles app forEach].
    wp_done H.
  - destruct (isTheme theme "Creative Designer 2"); wp_done H.
Qed.

Lemma forEach_idle {A : Type} (f : A -> M unit) (l : list A) :
  (forall a st, idle theme st -> wp (f a) (fun _ st' => idle theme st') st) ->
  forall st,
    idle theme st -> wp (forEach l f) (fun _ st' => idle theme st') st.
Proof.
  intros Hf. induction l as [| a r IH]; intros st Hi; simpl.
  - apply wp_ret. exact Hi.
  - apply wp_bind. eapply wp_mono; [apply Hf; exact Hi |].
    intros ? st' Hi'. apply IH. exact Hi'.
Qed.

Lemma renderBullet_idle (bullet : string) (st : State) :
  idle theme st ->
  wp (renderBullet splitTextToSize theme bullet)
    (fun _ st' => idle theme st') st.
Proof.
  intros Hi. unfold renderBullet. apply wp_bind.
  eapply wp_mono; [apply checkPageOverflow_idle; exact Hi |].
  clear Hi st. intros ? st [c H]. cbn beta. wp_run H.
  wp_join_waiting theme H.
  { apply drawBulletShape_waiting with (c := Some (bulletColor theme));
      [reflexivity | exact H]. }
  clear H. intros ? st1 [c1 H]. cbn beta. wp_done H.
Qed.

Lemma renderSectionTitle_idle (title : string) (c : option RGB)
    (st : State) :
  tracks theme (st_doc st)
    {| mon_color := c; mon_pending := Some (MkH2, st_y st) |} ->
  wp (renderSectionTitle getTextWidth toUpperCase theme title)
    (fun _ st' => idle theme st') st.
Proof.
  intros H. unfold renderSectionTitle. wp_run H.
  wp_join_waiting theme H.
  { destruct (truthy _); wp_done H. }
  clear H. intros sectionX st1 [c1 H]. cbn beta. wp_run H.
  eapply wp_mono; [apply drawCompactSectionBox_keeps; exact H |].
  clear H. intros ? st2 H. cbn beta. wp_done H.
Qed.

Lemma renderHeader_idle (name contact : string) (st : State) :
  idle theme st ->
  wp (renderHeader getTextWidth toUpperCase theme headerBarImage name contact)
    (fun _ st' => idle theme st') st.
Proof.
  intros [c H]. unfold renderHeader. wp_run H.
  wp_join_waiting theme H.
  { destruct (truthy _); wp_done H. }
  clear H. intros nameX st1 [c1 H]. cbn beta. wp_run H.
  wp_join_idle theme.
  { destruct (isTheme theme "Classic Minimalist"); wp_done H. }
  clear H. intros ? st2 [c2 H]. cbn beta. wp_run H.
  wp_join_idle theme.
  { unfold when. destruct (truthy contact); [| wp_done H]. wp_run H.
    wp_join_waiting theme H.
    { destruct (truthy _); wp_done H. }
    clear H. intros contactX st3 [c3 H]. cbn beta. wp_run H.
    destruct headerBarImage; destruct (images theme); wp_done H. }
  clear H. intros ? st3 [c3 H]. cbn beta. wp_run H.
  wp_join_idle theme.
  { unfold when. destruct (isTheme theme "Classic Minimalist"); wp_done H. }
  clear H. intros ? st4 [c4 H]. cbn beta.
  unfold when. destruct (isTheme theme "Compact Executive"); wp_done H.
Qed.

Lemma renderSummary_idle (text : string) (st : State) :
  idle theme st ->
  wp (renderSummary splitTextToSize theme text)
    (fun _ st' => idle theme st') st.
Proof.
  intros Hi. unfold renderSummary. apply wp_bind.
  eapply wp_mono; [apply checkPageOverflow_idle; exact Hi |].
  clear Hi st. intros ? st [c H]. cbn beta. wp_done H.
Qed.

Lemma renderBulletSection_idle (title : string) (bullets : list string)
    (st : State) :
  idle theme st ->
  wp (renderBulletSection getTextWidth splitTextToSize toUpperCase theme
        sectionBarImage title bullets)
    (fun _ st' => idle theme st') st.
Proof.
  intros Hi. unfold renderBulletSection. apply wp_bind.
  eapply wp_mono; [apply checkPageOverflow_idle; exact Hi |].
  clear Hi st. intros ? st [c H]. cbn beta. wp_run H.
  eapply wp_mono; [apply drawSectionBar_keeps; exact H |].
  clear H. intros ? st1 H. cbn beta. wp_run H.
  eapply wp_mono; [eapply renderSectionTitle_idle; exact H |].
  clear H. intros ? st2 Hi. cbn beta.
  apply forEach_idle; [| exact Hi]. intros; now apply renderBullet_idle.
Qed.

Lemma renderRole_idle (role : Role) (st : State) :
  idle theme st ->
  wp (renderRole getTextWidth splitTextToSize theme role)
    (fun _ st' => idle theme st') st.
Proof.
  intros Hi. unfold renderRole. apply wp_bind.
  eapply wp_mono; [apply checkPageOverflow_idle; exact Hi |].
  clear Hi st. intros ? st [c H]. cbn beta. wp_run H.
  wp_join_idle theme.
  { unfold when. destruct (truthy (role_title role) || truthy (role_period role));
      [| wp_done H].
    wp_run H. wp_join_idle theme.
    { destruct (truthy _); wp_done H. }
    clear H. intros metaX st1 [c1 H]. cbn beta. wp_run H.
    wp_join_idle theme.
    { destruct (truthy (role_title role)); wp_done H. }
    clear H. intros ? st2 [c2 H]. cbn beta. wp_run H.
    wp_join_idle theme.
    { destruct (truthy (role_period role)); wp_done H. }
    clear H. intros ? st3 [c3 H]. cbn beta. wp_done H. }
  clear H. intros ? st1 Hi. cbn beta. apply wp_bind.
  eapply wp_mono.
  { apply forEach_idle; [| exact Hi]. intros; now apply renderBullet_idle. }
  intros ? st2 [c2 H]. cbn beta. wp_done H.
Qed.

Lemma renderJob_idle (job : Job) (st : State) :
  idle theme st ->
  wp (renderJob getTextWidth splitTextToSize theme job)
    (fun _ st' => idle theme st') st.
Proof.
  intros Hi. unfold renderJob. apply wp_bind.
  eapply wp_mono; [apply checkPageOverflow_idle; exact Hi |].
  clear Hi st. intros ? st [c H]. cbn beta. wp_run H.
  wp_join_idle theme.
  { unfold when. destruct (truthy (job_company job)); [| wp_done H].
    wp_run H. wp_join_waiting theme H.
    { destruct (truthy _); wp_done H. }
    clear H. intros companyX st1 [c1 H]. cbn beta. wp_done H. }
  clear H. intros ? st1 Hi. cbn beta. apply wp_bind.
  eapply wp_mono.
  { apply forEach_idle; [| exact Hi]. intros; now apply renderRole_idle. }
  intros ? st2 [c2 H]. cbn beta. wp_done H.
Qed.

Lemma renderExperience_idle (title : string) (jobs : list Job) (st : State) :
  idle theme st ->
  wp (renderExperience getTextWidth splitTextToSize toUpperCase theme
        sectionBarImage title jobs)
    (fun _ st' => idle theme st') st.
Proof.
  intros Hi. unfold renderExperience. apply wp_bind.
  eapply wp_mono; [apply checkPageOverflow_idle; exact Hi |].
  clear Hi st. intros ? st [c H]. cbn beta. wp_run H.
  eapply wp_mono; [apply drawSectionBar_keeps; exact H |].
  clear H. intros ? st1 H. cbn beta. wp_run H.
  eapply wp_mono; [eapply renderSectionTitle_idle; exact H |].
  clear H. intros ? st2 Hi. cbn beta.
  apply forEach_idle; [| exact Hi]. intros; now apply renderJob_idle.
Qed.

Lemma renderSection_idle (section : SectionData) (st : State) :
  idle theme st ->
  wp (renderSection getTextWidth splitTextToSize toUpperCase theme
        headerBarImage sectionBarImage section)
    (fun _ st' => idle theme st') st.
Proof.
  intros Hi. destruct section; simpl.
  - now apply renderHeader_idle.
  - now apply renderSummary_idle.
  - now apply renderBulletSection_idle.
  - now apply renderExperience_idle.
  - apply wp_ret. exact Hi.
Qed.

End ComposerFacts.

(** The monitor accepts every document that [generatePDF] produces, and no
    ghost token is left waiting at the end. *)
Lemma generatePDF_accepted
    (getTextWidth : list Event -> string -> Q)
    (splitTextToSize : list Event -> string -> Q -> list string)
    (toUpperCase : string -> string)
    (loadImageAsBase64 : string -> option string)
    (theme : Theme) (sections : list SectionData) :
  exists c,
    tracks theme
      (generatePDF getTextWidth splitTextToSize toUpperCase loadImageAsBase64
         theme sections)
      {| mon_color := c; mon_pending := None |}.
Proof.
  unfold generatePDF.
  set (st0 := {| st_y := margin theme; st_doc := [] |}).
  assert (H : tracks theme (st_doc st0) monitorStart) by reflexivity.
  match goal with
  | |- exists c, tracks _ (st_doc (snd (?m st0))) _ =>
      change (wp m (fun _ st' => idle theme st') st0)
  end.
  wp_run H. unfold renderSections.
  eapply wp_mono.
  { apply forEach_idle; [| eexists; exact H].
    intros; now apply renderSection_idle. }
  clear H. intros ? st1 [c1 H]. cbn beta. wp_done H.
Qed.

(** ** The composer: what is appended to the log *)

Section Emits.

Variable p : Event -> bool.

Lemma emitsOnly_ret {A : Type} (a : A) : emitsOnly p (ret a).
Proof.
  intros st. exists []. simpl. now rewrite app_nil_r.
Qed.

Lemma emitsOnly_getY : emitsOnly p getY.
Proof.
  intros st. exists []. simpl. now rewrite app_nil_r.
Qed.

Lemma emitsOnly_setY (v : Q) : emitsOnly p (setY v).
Proof.
  intros st. exists []. simpl. now rewrite app_nil_r.
Qed.

Lemma emitsOnly_advance (d : Q) : emitsOnly p (advance d).
Proof.
  intros st. exists []. simpl. now rewrite app_nil_r.
Qed.

Lemma emitsOnly_measure (w : list Event -> string -> Q) (s : string) :
  emitsOnly p (measure w s).
Proof.
  intros st. exists []. simpl. now rewrite app_nil_r.
Qed.

Lemma emitsOnly_splitToSize (f : list Event -> string -> Q -> list string)
    (s : string) (maxWidth : Q) :
  emitsOnly p (splitToSize f s maxWidth).
Proof.
  intros st. exists []. simpl. now rewrite app_nil_r.
Qed.

Lemma emitsOnly_emit (e : Event) : p e = true -> emitsOnly p (emit e).
Proof.
  intros H st. exists [e]. simpl. now rewrite H.
Qed.

Lemma emitsOnly_bind {A B : Type} (m : M A) (k : A -> M B) :
  emitsOnly p m -> (forall a, emitsOnly p (k a)) -> emitsOnly p (bind m k).
Proof.
  intros Hm Hk st. unfold bind.
  destruct (Hm st) as (b1 & E1 & P1). destruct (m st) as [a st1].
  destruct (Hk a st1) as (b2 & E2 & P2). simpl in *.
  exists (b1 ++ b2). rewrite E2, E1, <- app_assoc, forallb_app, P1, P2. auto.
Qed.

Lemma emitsOnly_forEach {A : Type} (l : list A) (f : A -> M unit) :
  (forall a, emitsOnly p (f a)) -> emitsOnly p (forEach l f).
Proof.
  intros Hf. induction l as [| a r IH]; simpl.
  - apply emitsOnly_ret.
  - apply emitsOnly_bind; [apply Hf | intros _; exact IH].
Qed.

End Emits.

Ltac emits_step :=
  first
    [ apply emitsOnly_bind; [| intros ?]
    | apply emitsOnly_emit; reflexivity
    | apply emitsOnly_ret
    | apply emitsOnly_getY
    | apply emitsOnly_setY
    | apply emitsOnly_advance
    | apply emitsOnly_measure
    | apply emitsOnly_splitToSize
    | apply emitsOnly_forEach; intros ?
    | progress cbv zeta
    | progress
        unfold when, checkPageOverflow, addNewPage, drawCompactSectionBox,
          drawSectionBar, drawBulletShape, renderBullet, renderSectionTitle,
          renderRole, renderJob, renderHeader
    | progress cbn [forEach diamondTriangles flat_map petalTriangles app]
    | match goal with
      | |- emitsOnly _ (if ?b then _ else _) => destruct b
      | |- emitsOnly _ (match ?o with _ => _ end) => destruct o
      end ].

Ltac emits_auto := repeat emits_step.

Section CallOrder.

Variable getTextWidth : list Event -> string -> Q.
Variable splitTextToSize : list Event -> string -> Q -> list string.
Variable toUpperCase : string -> string.
Variable theme : Theme.
Variable headerBarImage : option string.
Variable sectionBarImage : option string.

(** A sequence that starts with [checkPageOverflow] starts its part of the
    log with the entry into that helper. *)
Lemma checkPageOverflow_first {A : Type} (requiredSpace : Q)
    (k : bool -> M A) :
  (forall b, emitsOnly anyEvent (k b)) ->
  forall st,
    exists rest,
      st_doc (snd (bind (checkPageOverflow theme requiredSpace) k st))
      = st_doc st ++ CheckPageOverflow requiredSpace :: rest.
Proof.
  intros Hk st.
  destruct (checkPageOverflow_log theme requiredSpace st)
    as (r1 & E1).
  unfold bind. destruct (checkPageOverflow theme requiredSpace st) as [b st1].
  destruct (Hk b st1) as (r2 & E2 & _). simpl in *.
  exists (r1 ++ r2). rewrite E2, E1, <- app_assoc. reflexivity.
Qed.

Lemma renderHeader_no_check (name contact : string) :
  emitsOnly notCheck
    (renderHeader getTextWidth toUpperCase theme headerBarImage name contact).
Proof.
  emits_auto.
Qed.

End CallOrder.

(** ** Space checks and sections *)

(** C3, as the code has it: the summary, generic and experience branches
    enter [checkPageOverflow] with 30 before anything else is appended to
    the log; the header branch appends to the log without ever entering
    it. *)
Theorem sections_check_space_first
    (getTextWidth : list Event -> string -> Q)
    (splitTextToSize : list Event -> string -> Q -> list string)
    (toUpperCase : string -> string)
    (theme : Theme) (headerBarImage sectionBarImage : option string) :
  let render :=
    renderSection getTextWidth splitTextToSize toUpperCase theme
      headerBarImage sectionBarImage in
  (forall text st,
      exists rest,
        st_doc (snd (render (Summary text) st))
        = st_doc st ++ CheckPageOverflow 30 :: rest)
  /\ (forall title bullets st,
        exists rest,
          st_doc (snd (render (BulletSection title bullets) st))
          = st_doc st ++ CheckPageOverflow 30 :: rest)
  /\ (forall title jobs st,
        exists rest,
          st_doc (snd (render (Experience title jobs) st))
          = st_doc st ++ CheckPageOverflow 30 :: rest)
  /\ (forall name contact st,
        exists blk,
          st_doc (snd (render (Header name contact) st)) = st_doc st ++ blk
          /\ forallb notCheck blk = true).
Proof.
  cbv zeta. repeat split.
  - intros text. simpl. unfold renderSummary.
    apply checkPageOverflow_first. intros b. emits_auto.
  - intros title bullets. simpl. unfold renderBulletSection.
    apply checkPageOverflow_first. intros b. emits_auto.
  - intros title jobs. simpl. unfold renderExperience.
    apply checkPageOverflow_first. intros b. emits_auto.
  - intros name contact st. simpl. apply renderHeader_no_check.
Qed.

(** C3 as stated fails for the header: at the bottom of a page the header
    branch starts its part of the log with the font size, not with a space
    check. *)
Lemma header_skips_space_check :
  ~ (forall section st,
        match section with OtherSection _ => False | _ => True end ->
        exists requiredSpace rest,
          st_doc (snd (renderSection fixedWidth oneLine sameCase themeCreative
                         None None section st))
          = st_doc st ++ CheckPageOverflow requiredSpace :: rest).
Proof.
  intros H.
  destruct (H (Header "Jane Doe" "jane@x.com")
              {| st_y := 290; st_doc := [] |} I) as (r & rest & E).
  vm_compute in E. discriminate E.
Qed.

(** ** Ghost tags *)

Lemma nth_error_cut {A : Type} (l : list A) :
  forall i a,
    nth_error l i = Some a -> l = firstn i l ++ a :: skipn (S i) l.
Proof.
  induction l as [| h t IH]; intros [| i] a H; simpl in *; try discriminate.
  - now injection H as ->.
  - f_equal. now apply IH.
Qed.

(** C8: in the log of a render every ghost token is written while the text
    colour in effect is the background colour of the theme, and the next
    marked text after it is the visible content of its kind on the same
    line: the token comes strictly before the content it announces. *)
Theorem ghost_precedes_content_in_bg
    (getTextWidth : list Event -> string -> Q)
    (splitTextToSize : list Event -> string -> Q -> list string)
    (toUpperCase : string -> string)
    (loadImageAsBase64 : string -> option string)
    (theme : Theme) (sections : list SectionData)
    (i : nat) (k : MarkerKind) (s : string) (x y : Q) :
  let doc :=
    generatePDF getTextWidth splitTextToSize toUpperCase loadImageAsBase64
      theme sections in
  nth_error doc i = Some (Text (Ghost k) s x y) ->
  s = markerToken k
  /\ textColor (firstn i doc) = Some (colors_bg (colors theme))
  /\ exists e x' y',
       nextMarked (skipn (S i) doc) = Some e
       /\ contentOf e = Some (k, x', y')
       /\ y == y'.
Proof.
  intros doc Hi.
  destruct (generatePDF_accepted getTextWidth splitTextToSize toUpperCase
              loadImageAsBase64 theme sections) as [c Hacc].
  fold doc in Hacc. unfold tracks in Hacc.
  rewrite (nth_error_cut _ _ _ Hi), monitorRun_app in Hacc.
  destruct (monitorRun _ _ monitorStart (firstn i doc)) as [m1 |] eqn:R1;
    [| discriminate].
  cbn [monitorRun] in Hacc.
  destruct (monitorStep _ _ m1 _) as [m2 |] eqn:Hstep; [| discriminate].
  destruct (step_ghost _ _ _ _ (Text (Ghost k) s x y) k s x y eq_refl Hstep)
    as (_ & Hc & _ & Hs & _ & Hp).
  split; [exact Hs |]. split.
  - pose proof (monitor_color _ _ _ _ _ R1) as HC. rewrite Hc in HC.
    simpl in HC. destruct (textColor (firstn i doc)); [| discriminate].
    now injection HC as <-.
  - apply (pending_resolved _ _ _ _ _ _ _ Hacc Hp eq_refl).
Qed.

(** The first ghost token of the sample render. *)
Lemma ghost_precedes_content_in_bg_witness :
  textColor
    (firstn 5
       (generatePDF fixedWidth oneLine sameCase noImage themeCreative
          sampleSections))
  = Some (255, 255, 255)%Z.
Proof.
  assert (H : nth_error
                (generatePDF fixedWidth oneLine sameCase noImage themeCreative
                   sampleSections) 5
              = Some (Text (Ghost MkH1) "# " 15 15))
    by (vm_compute; reflexivity).
  exact (proj1 (proj2 (ghost_precedes_content_in_bg fixedWidth oneLine
                         sameCase noImage themeCreative sampleSections 5 MkH1
                         "# " 15 15 H))).
Defined.

(** C2, as the code has it: every visible name, contact line, section
    title, company line and bullet text is preceded by the ghost token of
    its kind, written at the left margin on the same line (the same y); the
    x of the visible text is its own. *)
Theorem ghost_marker_at_margin_same_line
    (getTextWidth : list Event -> string -> Q)
    (splitTextToSize : list Event -> string -> Q -> list string)
    (toUpperCase : string -> string)
    (loadImageAsBase64 : string -> option string)
    (theme : Theme) (sections : list SectionData)
    (j : nat) (e : Event) (k : MarkerKind) (x y : Q) :
  let doc :=
    generatePDF getTextWidth splitTextToSize toUpperCase loadImageAsBase64
      theme sections in
  nth_error doc j = Some e ->
  contentOf e = Some (k, x, y) ->
  exists xg yg,
    lastMarked (firstn j doc) = Some (Text (Ghost k) (markerToken k) xg yg)
    /\ xg == margin theme
    /\ yg == y.
Proof.
  intros doc Hj Hc.
  destruct (generatePDF_accepted getTextWidth splitTextToSize toUpperCase
              loadImageAsBase64 theme sections) as [c Hacc].
  fold doc in Hacc. unfold tracks in Hacc.
  rewrite (nth_error_cut _ _ _ Hj), monitorRun_app in Hacc.
  destruct (monitorRun _ _ monitorStart (firstn j doc)) as [m1 |] eqn:R1;
    [| discriminate].
  cbn [monitorRun] in Hacc.
  destruct (monitorStep _ _ m1 e) as [m2 |] eqn:Hstep; [| discriminate].
  destruct (step_content _ _ _ _ _ _ _ _ Hc Hstep) as (y0 & Hp & Hq & _).
  destruct (pending_origin _ _ _ _ _ _ _ R1 Hp) as [(xg & HL & Hx) | [_ Hn]].
  - exists xg, y0. auto.
  - discriminate Hn.
Qed.

(** The name of the sample header and its token. *)
Lemma ghost_marker_at_margin_same_line_witness :
  exists xg yg,
    lastMarked
      (firstn 7
         (generatePDF fixedWidth oneLine sameCase noImage themeCreative
            sampleSections))
    = Some (Text (Ghost MkH1) "# " xg yg)
    /\ xg == 15 /\ yg == 15.
Proof.
  assert (H : nth_error
                (generatePDF fixedWidth oneLine sameCase noImage themeCreative
                   sampleSections) 7
              = Some (Text (Content MkH1) "Jane Doe" 15 15))
    by (vm_compute; reflexivity).
  exact (ghost_marker_at_margin_same_line fixedWidth oneLine sameCase noImage
           themeCreative sampleSections 7 _ MkH1 15 15 H eq_refl).
Defined.

(** C2 as stated fails for bullets: the token ["- "] is written at x = 15,
    the bullet text at x = 25. *)
Lemma bullet_marker_not_at_text_x :
  let doc :=
    generatePDF fixedWidth oneLine sameCase noImage themeCreative
      sampleSections in
  ~ (forall j e k x y,
        nth_error doc j = Some e ->
        contentOf e = Some (k, x, y) ->
        exists xg yg,
          lastMarked (firstn j doc)
          = Some (Text (Ghost k) (markerToken k) xg yg)
          /\ xg == x /\ yg == y).
Proof.
  intros doc H.
  match eval vm_compute in (nth_error doc 37) with
  | ?v => assert (E : nth_error doc 37 = v) by (vm_compute; reflexivity)
  end.
  destruct (H 37%nat _ _ _ _ E eq_refl) as (xg & yg & HL & Hx & _).
  vm_compute in HL. injection HL as <- <-.
  vm_compute in Hx. discriminate Hx.
Qed.
(** * Further properties *)

(** ** More on the inline bold parser *)

Lemma chunks_head (c : ascii) (r : string) :
  exists t,
    chunks (String c r) = EmptyString :: t
    \/ exists h, chunks (String c r) = String c h :: t.
Proof.
  destruct r as [| c' r'].
  - exists []. right. now exists EmptyString.
  - rewrite chunks_pair. destruct (isStar c && isStar c').
    + exists (chunks r'). now left.
    + pose proof (chunks_not_nil (String c' r')) as Hne.
      destruct (chunks (String c' r')) as [| h t]; [contradiction |].
      exists t. right. now exists h.
Qed.

Lemma chunks_delimiter_free (s : string) :
  Forall (fun piece => countDelims piece = 0%nat) (chunks s).
Proof.
  induction s as [| c | c c' r IH1 IH2] using string_scan_ind.
  - repeat constructor.
  - repeat constructor.
  - rewrite chunks_pair. destruct (isStar c && isStar c') eqn:E.
    + constructor; [reflexivity | exact IH1].
    + destruct (chunks_head c' r) as (t & [Hh | (h & Hh)]);
        rewrite Hh in *; simpl; inversion IH2; subst;
        constructor; auto.
      simpl. rewrite E. assumption.
Qed.

Lemma segmentsOf_from_chunks (cs : list string) :
  forall b seg,
    In seg (segmentsOf b cs) ->
    seg_text seg <> EmptyString /\ In (seg_text seg) cs.
Proof.
  induction cs as [| h t IH]; intros b seg Hin; simpl in Hin;
    [contradiction |].
  apply in_app_or in Hin. destruct Hin as [Hin | Hin].
  - unfold pushIfAny in Hin. destruct h; simpl in Hin; [contradiction |].
    destruct Hin as [<- | []]. simpl. split; [discriminate | now left].
  - destruct (IH _ _ Hin) as [H1 H2]. split; [exact H1 | now right].
Qed.

Lemma segmentsOf_length (cs : list string) :
  forall b, (List.length (segmentsOf b cs) <= List.length cs)%nat.
Proof.
  induction cs as [| h t IH]; intros b; simpl; [lia |].
  rewrite length_app. specialize (IH (negb b)).
  unfold pushIfAny. destruct (truthy h); simpl; lia.
Qed.

(** The parser never returns an empty segment, no segment text holds a
    delimiter, and there is at most one segment more than delimiters. *)
Theorem parse_segments_clean (s : string) :
  (forall seg,
      In seg (parseInlineBold s) ->
      seg_text seg <> EmptyString /\ countDelims (seg_text seg) = 0%nat)
  /\ (List.length (parseInlineBold s) <= S (countDelims s))%nat.
Proof.
  rewrite parseInlineBold_chunks. split.
  - intros seg Hin. destruct (segmentsOf_from_chunks _ _ _ Hin) as [H1 H2].
    split; [exact H1 |].
    pose proof (chunks_delimiter_free s) as HF.
    rewrite Forall_forall in HF. now apply HF.
  - rewrite <- length_chunks. apply segmentsOf_length.
Qed.

Lemma parse_segments_clean_witness :
  seg_text {| seg_text := "cd"; seg_bold := true |} <> EmptyString
  /\ countDelims (seg_text {| seg_text := "cd"; seg_bold := true |}) = 0%nat.
Proof.
  assert (Hin : In {| seg_text := "cd"; seg_bold := true |}
                  (parseInlineBold "ab **cd** ef"))
    by (vm_compute; right; left; reflexivity).
  exact (proj1 (parse_segments_clean "ab **cd** ef") _ Hin).
Defined.

Lemma chunks_plain (s : string) : countDelims s = 0%nat -> chunks s = [s].
Proof.
  induction s as [| c | c c' r IH1 IH2] using string_scan_ind;
    try reflexivity.
  rewrite chunks_pair.
  change (countDelims (String c (String c' r)))
    with (if isStar c && isStar c' then S (countDelims r)
          else countDelims (String c' r)).
  destruct (isStar c && isStar c'); [discriminate |].
  intros H. now rewrite (IH2 H).
Qed.

(** A text without delimiters comes back whole, as one normal segment; the
    empty text gives no segment. *)
Theorem parse_plain_text (s : string) :
  countDelims s = 0%nat ->
  parseInlineBold s
  = if truthy s then [ {| seg_text := s; seg_bold := false |} ] else [].
Proof.
  intros H. rewrite parseInlineBold_chunks, (chunks_plain s H). simpl.
  unfold pushIfAny. destruct (truthy s); reflexivity.
Qed.

Lemma parse_plain_text_witness :
  parseInlineBold "a * b"
  = [ {| seg_text := "a * b"; seg_bold := false |} ].
Proof.
  exact (parse_plain_text "a * b" eq_refl).
Defined.

Lemma chunks_starFree_app (t rest : string) :
  starFree t = true -> chunks (t ++ rest) = prependTo t (chunks rest).
Proof.
  induction t as [| c t IH]; intros H; simpl in H.
  - simpl. pose proof (chunks_not_nil rest) as Hne.
    destruct (chunks rest); [contradiction | reflexivity].
  - apply andb_true_iff in H. destruct H as [Hc Ht].
    apply negb_true_iff in Hc.
    change (String c t ++ rest)%string with (String c (t ++ rest)).
    destruct (t ++ rest)%string as [| c' r'] eqn:E.
    + destruct t; [| discriminate E]. simpl in E. subst rest. reflexivity.
    + rewrite chunks_pair, Hc. simpl andb. cbv iota.
      rewrite (IH Ht).
      change (String c t) with (String c EmptyString ++ t)%string.
      symmetry. apply prependTo_assoc, chunks_not_nil.
Qed.

Lemma chunks_delim_app (rest : string) :
  chunks ("**" ++ rest) = EmptyString :: chunks rest.
Proof.
  reflexivity.
Qed.

Lemma canonical_parse (segments : list Segment) :
  canonical segments = true ->
  segmentsOf false (chunks (toMarkup segments)) = segments.
Proof.
  induction segments as [| seg rest IH]; intros H; [reflexivity |].
  simpl in H. repeat (apply andb_true_iff in H; destruct H as [H ?]).
  destruct seg as [t b]. simpl in *. specialize (IH H0).
  destruct b; simpl.
  - rewrite chunks_starFree_app by assumption.
    change ("**" ++ toMarkup rest)%string
      with (String "*" (String "*" (toMarkup rest))).
    rewrite chunks_pair. simpl. rewrite string_app_nil_r, IH.
    unfold pushIfAny. rewrite H. reflexivity.
  - rewrite chunks_starFree_app by assumption.
    destruct rest as [| next rest'].
    + simpl. rewrite string_app_nil_r. unfold pushIfAny. now rewrite H.
    + simpl in H1. destruct next as [t' b']. simpl in H1. subst b'.
      simpl in IH |- *. simpl. rewrite string_app_nil_r.
      unfold pushIfAny at 1. rewrite H. simpl. f_equal. exact IH.
Qed.

(** Round trip: the markup of a canonical segment sequence parses back to
    that sequence. *)
Theorem parse_toMarkup (segments : list Segment) :
  canonical segments = true ->
  parseInlineBold (toMarkup segments) = segments.
Proof.
  intros H. rewrite parseInlineBold_chunks. now apply canonical_parse.
Qed.

Lemma parse_toMarkup_witness :
  parseInlineBold
    (toMarkup [ {| seg_text := "ab "; seg_bold := false |};
                {| seg_text := "cd"; seg_bold := true |};
                {| seg_text := "ef"; seg_bold := true |} ])
  = [ {| seg_text := "ab "; seg_bold := false |};
      {| seg_text := "cd"; seg_bold := true |};
      {| seg_text := "ef"; seg_bold := true |} ].
Proof.
  exact (parse_toMarkup
           [ {| seg_text := "ab "; seg_bold := false |};
             {| seg_text := "cd"; seg_bold := true |};
             {| seg_text := "ef"; seg_bold := true |} ] eq_refl).
Defined.

(** ** More on the inline bold renderer *)

Lemma joinAll_app (l1 l2 : list string) :
  joinAll (l1 ++ l2) = (joinAll l1 ++ joinAll l2)%string.
Proof.
  induction l1 as [| h t IH]; simpl; [reflexivity |].
  rewrite IH. symmetry. apply string_app_assoc.
Qed.

Lemma wordTexts_app (l1 l2 : list Event) :
  wordTexts (l1 ++ l2) = (wordTexts l1 ++ wordTexts l2)%string.
Proof.
  unfold wordTexts. now rewrite wordsOf_app, map_app, joinAll_app.
Qed.

Lemma countMarkers_app (l1 l2 : list Event) :
  countMarkers (l1 ++ l2) = (countMarkers l1 + countMarkers l2)%nat.
Proof.
  induction l1 as [| e l1 IH]; [reflexivity |].
  destruct e as [| | | | | | site | | | | | | | | |]; simpl; try exact IH.
  destruct site; simpl; rewrite ?IH; reflexivity.
Qed.

Lemma inked_app (l1 l2 : list Event) :
  forall c,
    inked c (l1 ++ l2)
    = inked c l1 ++ inked (match textColor l1 with
                           | Some c' => Some c'
                           | None => c
                           end) l2.
Proof.
  induction l1 as [| e l1 IH]; intros c; [reflexivity |].
  destruct e; simpl; rewrite IH; destruct (textColor l1); reflexivity.
Qed.

Lemma split_not_nil (sep : ascii) (s : string) : split sep s <> [].
Proof.
  destruct s as [| c r]; simpl; [discriminate |].
  destruct (Ascii.eqb c sep); [discriminate |].
  destruct (split sep r); discriminate.
Qed.

(** Splitting at the spaces and putting the words together again gives the
    text back. *)
Lemma rejoin_split (s : string) : rejoin (split " " s) = s.
Proof.
  induction s as [| c r IH]; [reflexivity |].
  simpl split. destruct (Ascii.eqb c " ") eqn:E.
  - apply Ascii.eqb_eq in E. subst c.
    pose proof (split_not_nil " " r) as Hne.
    simpl. destruct (split " " r) as [| h t] eqn:S; [contradiction |].
    now rewrite IH.
  - pose proof (split_not_nil " " r) as Hne.
    destruct (split " " r) as [| h t] eqn:S; [contradiction |].
    destruct t as [| h' t']; simpl in *; now rewrite <- IH.
Qed.

Section InlineLog.

Variable getTextWidth : list Event -> string -> Q.
Variable theme : Theme.
Variables x rightEdge : Q.
Variable fontFamily : string.

Let adv : Q :=
  lineHeight theme (fonts_li (fonts theme)) (lineHeights_li (lineHeights theme)).

(** What one word appends to the log, and where it leaves the pen. *)
Lemma renderWord_block (segment : Segment) (nwords : nat) (word : string)
    (idx : nat) (fl : Flow) :
  let w :=
    getTextWidth
      (flow_doc fl
       ++ [SetFont fontFamily (if seg_bold segment then "bold" else "normal")])
      (if isBefore idx (lastIndex nwords) then (word ++ " ")%string
       else word) in
  let wrap := Qgtb (currentX fl + w) rightEdge && Qgtb (currentX fl) x in
  let px := if wrap then x else currentX fl in
  let py := if wrap then currentY fl + adv else currentY fl in
  let fl' :=
    renderWord getTextWidth theme x rightEdge fontFamily segment nwords word
      idx fl in
  flow_doc fl'
  = flow_doc fl ++ wordBlock theme fontFamily segment nwords word idx px py w
  /\ currentY fl' = py.
Proof.
  unfold renderWord, draw, wordBlock, adv. simpl.
  destruct (Qgtb _ rightEdge && Qgtb (currentX fl) x);
    destruct (seg_bold segment && (idx =? 0)%nat);
    destruct (seg_bold segment && isAt idx (lastIndex nwords));
    simpl; repeat rewrite <- app_assoc; simpl; split; reflexivity.
Qed.

Lemma wordBlock_ink (segment : Segment) (nwords : nat) (word : string)
    (idx : nat) (px py w : Q) (c : option RGB) :
  Forall (inlineInk theme)
    (inked c (wordBlock theme fontFamily segment nwords word idx px py w)).
Proof.
  unfold wordBlock.
  destruct (seg_bold segment && (idx =? 0)%nat);
    destruct (seg_bold segment && isAt idx (lastIndex nwords));
    simpl; repeat constructor.
Qed.

Lemma wordBlock_text (segment : Segment) (nwords : nat) (word : string)
    (idx : nat) (px py w : Q) :
  wordTexts (wordBlock theme fontFamily segment nwords word idx px py w)
  = if isBefore idx (lastIndex nwords) then (word ++ " ")%string else word.
Proof.
  unfold wordBlock, wordTexts.
  destruct (seg_bold segment && (idx =? 0)%nat);
    destruct (seg_bold segment && isAt idx (lastIndex nwords));
    simpl; apply string_app_nil_r.
Qed.

Lemma wordBlock_markers (segment : Segment) (nwords : nat) (word : string)
    (idx : nat) (px py w : Q) :
  countMarkers (wordBlock theme fontFamily segment nwords word idx px py w)
  = ((if seg_bold segment && (idx =? 0)%nat then 1 else 0)
     + (if seg_bold segment && isAt idx (lastIndex nwords) then 1 else 0))%nat.
Proof.
  unfold wordBlock.
  destruct (seg_bold segment && (idx =? 0)%nat);
    destruct (seg_bold segment && isAt idx (lastIndex nwords));
    reflexivity.
Qed.

(** The log of a run: what was appended, and how often the line was
    broken. *)
Let Logged (fl fl' : Flow) (blk : list Event) (k : nat) : Prop :=
  flow_doc fl' = flow_doc fl ++ blk
  /\ (forall c, Forall (inlineInk theme) (inked c blk))
  /\ currentY fl' == currentY fl + inject_Z (Z.of_nat k) * adv.

Lemma forEachWord_log (segment : Segment) (nwords : nat)
    (words : list string) :
  forall idx fl,
    (idx + List.length words = nwords)%nat ->
    exists blk k,
      Logged fl
        (forEachWord
           (renderWord getTextWidth theme x rightEdge fontFamily segment
              nwords) words idx fl) blk k
      /\ wordTexts blk = rejoin words
      /\ countMarkers blk
         = (if seg_bold segment
            then match words with
                 | [] => 0
                 | _ :: _ => (if (idx =? 0)%nat then 1 else 0) + 1
                 end
            else 0)%nat
      /\ (k <= List.length words)%nat.
Proof.
  induction words as [| word rest IH]; intros idx fl Hn.
  - exists [], 0%nat. simpl. repeat split.
    + now rewrite app_nil_r.
    + intros c. constructor.
    + simpl. ring.
    + now destruct (seg_bold segment).
    + lia.
  - simpl forEachWord.
    pose proof (renderWord_block segment nwords word idx fl) as Hb.
    cbv zeta in Hb.
    set (fl1 := renderWord getTextWidth theme x rightEdge fontFamily segment
                  nwords word idx fl) in *.
    set (w := getTextWidth _ _) in Hb.
    set (wrap := Qgtb (currentX fl + w) rightEdge && Qgtb (currentX fl) x)
      in Hb.
    destruct Hb as [Hd Hy].
    simpl in Hn.
    destruct (IH (S idx) fl1) as (blk2 & k2 & (Hd2 & Hi2 & Hy2) & Ht2 & Hm2 & Hk2);
      [lia |].
    set (b1 := wordBlock theme fontFamily segment nwords word idx _ _ w) in *.
    exists (b1 ++ blk2), ((if wrap then 1 else 0) + k2)%nat.
    assert (Hlast : isAt idx (lastIndex nwords)
                    = match rest with [] => true | _ :: _ => false end).
    { unfold isAt, lastIndex. destruct rest; simpl in Hn.
      - apply Z.eqb_eq. lia.
      - apply Z.eqb_neq. lia. }
    assert (Hbefore : isBefore idx (lastIndex nwords)
                      = match rest with [] => false | _ :: _ => true end).
    { unfold isBefore, lastIndex. destruct rest; simpl in Hn.
      - apply Z.ltb_ge. lia.
      - apply Z.ltb_lt. lia. }
    repeat split.
    + rewrite Hd2, Hd, <- app_assoc. reflexivity.
    + intros c. rewrite inked_app. apply Forall_app. split.
      * apply wordBlock_ink.
      * apply Hi2.
    + rewrite Hy2, Hy. destruct wrap.
      * rewrite Nat2Z.inj_add, inject_Z_plus. simpl (inject_Z (Z.of_nat 1)).
        ring.
      * simpl. ring.
    + rewrite wordTexts_app, Ht2. unfold b1. rewrite wordBlock_text, Hbefore.
      destruct rest; simpl.
      * apply string_app_nil_r.
      * apply string_app_assoc.
    + rewrite countMarkers_app, Hm2. unfold b1.
      rewrite wordBlock_markers, Hlast.
      destruct (seg_bold segment); simpl; [| reflexivity].
      destruct rest; simpl; destruct (idx =? 0)%nat; reflexivity.
    + simpl. destruct wrap; simpl; lia.
Qed.

Lemma renderSegments_log (segments : list Segment) :
  forall fl,
    exists blk k,
      Logged fl
        (renderSegments getTextWidth theme x rightEdge fontFamily segments fl)
        blk k
      /\ wordTexts blk = concatTexts segments
      /\ countMarkers blk = (2 * countBold segments)%nat
      /\ (k <= countWords segments)%nat.
Proof.
  induction segments as [| segment rest IH]; intros fl.
  - exists [], 0%nat. simpl. repeat split.
    + now rewrite app_nil_r.
    + intros c. constructor.
    + simpl. ring.
    + lia.
  - unfold renderSegments in *. simpl fold_left. unfold renderSegment at 2.
    destruct (forEachWord_log segment
                (List.length (split " " (seg_text segment)))
                (split " " (seg_text segment)) 0 fl eq_refl)
      as (b1 & k1 & (Hd1 & Hi1 & Hy1) & Ht1 & Hm1 & Hk1).
    set (fl1 := forEachWord _ _ 0%nat fl) in *.
    destruct (IH fl1) as (b2 & k2 & (Hd2 & Hi2 & Hy2) & Ht2 & Hm2 & Hk2).
    exists (b1 ++ b2), (k1 + k2)%nat. repeat split.
    + rewrite Hd2, Hd1, <- app_assoc. reflexivity.
    + intros c. rewrite inked_app. apply Forall_app. split; [apply Hi1 | apply Hi2].
    + rewrite Hy2, Hy1, Nat2Z.inj_add, inject_Z_plus. ring.
    + rewrite wordTexts_app, Ht1, Ht2, rejoin_split. reflexivity.
    + rewrite countMarkers_app, Hm1, Hm2. unfold countBold. simpl.
      pose proof (split_not_nil " " (seg_text segment)) as Hne.
      destruct (split " " (seg_text segment)); [contradiction |].
      destruct (seg_bold segment); simpl; lia.
    + simpl. lia.
Qed.

End InlineLog.

(** The words placed by [renderInlineBold], read one after the other, spell
    the text without its [**] delimiters: splitting at the spaces loses
    nothing. *)
Theorem inline_words_spell_text
    (getTextWidth : list Event -> string -> Q) (doc : list Event)
    (text : string) (x y : Q) (theme : Theme) (maxWidth pageWidth margin : Q)
    (fontFamily : string) :
  wordTexts (snd (renderInlineBold getTextWidth doc text x y theme maxWidth
                    pageWidth margin fontFamily))
  = (wordTexts doc ++ stripDelims text)%string.
Proof.
  unfold renderInlineBold. simpl.
  destruct (renderSegments_log getTextWidth theme x (pageWidth - margin)
              fontFamily (parseInlineBold text)
              {| currentX := x; currentY := y; flow_doc := doc |})
    as (blk & k & (Hd & _) & Ht & _).
  rewrite Hd, wordTexts_app, Ht. simpl. now rewrite parse_concat_strip.
Qed.

(** [renderInlineBold] only appends to the document, and in what it appends
    every word is drawn in the text colour of the theme and every [**]
    marker in its background colour, whatever colour was in effect before. *)
Theorem inline_ink_discipline
    (getTextWidth : list Event -> string -> Q) (doc : list Event)
    (text : string) (x y : Q) (theme : Theme) (maxWidth pageWidth margin : Q)
    (fontFamily : string) :
  exists blk,
    snd (renderInlineBold getTextWidth doc text x y theme maxWidth pageWidth
           margin fontFamily) = doc ++ blk
    /\ forall c, Forall (inlineInk theme) (inked c blk).
Proof.
  unfold renderInlineBold. simpl.
  destruct (renderSegments_log getTextWidth theme x (pageWidth - margin)
              fontFamily (parseInlineBold text)
              {| currentX := x; currentY := y; flow_doc := doc |})
    as (blk & k & (Hd & Hi & _) & _).
  exists blk. split; [exact Hd | exact Hi].
Qed.

(** Every bold segment gets exactly two [**] markers, the other segments
    none. *)
Theorem inline_markers_balanced
    (getTextWidth : list Event -> string -> Q) (doc : list Event)
    (text : string) (x y : Q) (theme : Theme) (maxWidth pageWidth margin : Q)
    (fontFamily : string) :
  countMarkers (snd (renderInlineBold getTextWidth doc text x y theme maxWidth
                       pageWidth margin fontFamily))
  = (countMarkers doc + 2 * countBold (parseInlineBold text))%nat.
Proof.
  unfold renderInlineBold. simpl.
  destruct (renderSegments_log getTextWidth theme x (pageWidth - margin)
              fontFamily (parseInlineBold text)
              {| currentX := x; currentY := y; flow_doc := doc |})
    as (blk & k & (Hd & _) & _ & Hm & _).
  rewrite Hd, countMarkers_app, Hm. reflexivity.
Qed.

(** The y that [renderInlineBold] returns is the start y plus a whole number
    of line advances, at most one per word. *)
Theorem inline_returns_whole_lines
    (getTextWidth : list Event -> string -> Q) (doc : list Event)
    (text : string) (x y : Q) (theme : Theme) (maxWidth pageWidth margin : Q)
    (fontFamily : string) :
  exists k : nat,
    (k <= countWords (parseInlineBold text))%nat
    /\ fst (renderInlineBold getTextWidth doc text x y theme maxWidth
              pageWidth margin fontFamily)
       == y + inject_Z (Z.of_nat k)
              * lineHeight theme (fonts_li (fonts theme))
                  (lineHeights_li (lineHeights theme)).
Proof.
  unfold renderInlineBold. simpl.
  destruct (renderSegments_log getTextWidth theme x (pageWidth - margin)
              fontFamily (parseInlineBold text)
              {| currentX := x; currentY := y; flow_doc := doc |})
    as (blk & k & (_ & _ & Hy) & _ & _ & Hk).
  exists k. split; [exact Hk | exact Hy].
Qed.

(** ** More on units and page overflow *)

(** The conversions keep the order and the sign: a larger value converts
    to a length that is not smaller, a value that is not negative to a
    length that is not negative, and the same holds for the line advance in
    its font size when the line height multiplier is not negative. *)
Theorem conversions_monotone (theme : Theme) (a b lh : Q) :
  (a <= b -> px theme a <= px theme b /\ pt theme a <= pt theme b)
  /\ (0 <= a -> 0 <= px theme a /\ 0 <= pt theme a)
  /\ (0 <= lh ->
      (a <= b -> lineHeight theme a lh <= lineHeight theme b lh)
      /\ (0 <= a -> 0 <= lineHeight theme a lh)).
Proof.
  unfold px, pt, lineHeight, PX_TO_MM, PT_TO_MM.
  split; [| split].
  - intros H. split; (apply Qmult_le_compat_r; [exact H | discriminate]).
  - intros H. split; (apply Qmult_le_0_compat; [exact H | discriminate]).
  - intros Hlh. split; intros H.
    + apply Qmult_le_compat_r; [| discriminate].
      apply Qmult_le_compat_r; assumption.
    + apply Qmult_le_0_compat; [| discriminate].
      apply Qmult_le_0_compat; assumption.
Qed.

Lemma conversions_monotone_witness :
  px themeCreative 3 <= px themeCreative 4
  /\ 0 <= pt themeCreative 4
  /\ lineHeight themeCreative 9 1.5 <= lineHeight themeCreative 10 1.5.
Proof.
  split; [| split].
  - apply (proj1 (conversions_monotone themeCreative 3 4 1)). discriminate.
  - apply (proj1 (proj2 (conversions_monotone themeCreative 4 4 1))).
    discriminate.
  - apply (proj2 (proj2 (conversions_monotone themeCreative 9 10 1.5)));
      discriminate.
Defined.

(** After a page break a second check with the same requirement breaks the
    page again exactly when the requirement exceeds the height between the
    margins: a block that cannot fit an empty page costs a page at every
    check. *)
Theorem checkPageOverflow_twice (theme : Theme) (requiredSpace : Q)
    (st : State) :
  fst (checkPageOverflow theme requiredSpace st) = true ->
  let st1 := snd (checkPageOverflow theme requiredSpace st) in
  (fst (checkPageOverflow theme requiredSpace st1) = true
   <-> pageHeight - 2 * margin theme < requiredSpace).
Proof.
  unfold checkPageOverflow, addNewPage, bind, emit, getY, setY, ret. simpl.
  destruct (Qgtb (st_y st + requiredSpace) (pageHeight - margin theme));
    simpl; [intros _ | discriminate].
  destruct (Qgtb (margin theme + requiredSpace) (pageHeight - margin theme))
    eqn:E; simpl.
  - apply Qgtb_true in E. split; [intros _; lra | reflexivity].
  - apply Qgtb_false in E. split; [discriminate | intros H; lra].
Qed.

Lemma checkPageOverflow_twice_witness :
  fst (checkPageOverflow themeCreative 280
         (snd (checkPageOverflow themeCreative 280
                 {| st_y := 15; st_doc := [] |}))) = true.
Proof.
  apply (checkPageOverflow_twice themeCreative 280
           {| st_y := 15; st_doc := [] |}); reflexivity.
Defined.

(** ** More on the shapes *)

(** Whatever the theme, the bullet shape leaves [y] alone, and every
    triangle it draws lies between the column of the ghost token and the
    column of the bullet text, at most two units above the line. *)
Theorem drawBulletShape_within (theme : Theme) (st : State) :
  exists blk,
    snd (drawBulletShape theme st)
    = {| st_y := st_y st; st_doc := st_doc st ++ blk |}
    /\ Forall
         (triangleWithin (margin theme + 5) (margin theme + 7)
            (st_y st - 2) (st_y st)) blk.
Proof.
  unfold drawBulletShape, bind, getY, emit. simpl.
  destruct (isTheme theme "Creative Designer").
  - unfold diamondTriangles. simpl.
    eexists. split; [repeat rewrite <- app_assoc; reflexivity |].
    repeat constructor; simpl; lra.
  - destruct (isTheme theme "Creative Designer 2"); simpl;
      (eexists; split; [repeat rewrite <- app_assoc; reflexivity |]);
      repeat constructor; simpl; lra.
Qed.

(** The grey bar of the Compact theme spans the width between the margins,
    ends one unit below the baseline of the title and, for a font size that
    is not negative, starts at least one unit above it; its left border runs
    along its whole height.  Every other theme draws nothing here. *)
Theorem compact_box_frames_baseline (theme : Theme) (text : string)
    (x y : Q) (st : State) :
  (isTheme theme "Compact Executive" = false ->
   snd (drawCompactSectionBox theme text x y st) = st)
  /\ (isTheme theme "Compact Executive" = true ->
      exists barY barHeight,
        snd (drawCompactSectionBox theme text x y st)
        = {| st_y := st_y st;
             st_doc :=
               st_doc st
               ++ [ SetFillColor (230, 231, 235)%Z;
                    Rect (margin theme) barY (pageWidth - 2 * margin theme)
                      barHeight;
                    SetDrawColor (0, 0, 0)%Z;
                    SetLineWidth 0.5;
                    Line (margin theme) barY (margin theme)
                      (barY + barHeight) ] |}
        /\ barY + barHeight == y + 1
        /\ (0 <= fonts_h2 (fonts theme) -> barY <= y - 1)).
Proof.
  unfold drawCompactSectionBox, when. split; intros H; rewrite H.
  - now destruct st.
  - unfold bind, emit. simpl. do 2 eexists. split.
    + repeat rewrite <- app_assoc. reflexivity.
    + unfold pt, PT_TO_MM. split; [ring | intros Hf].
      assert (Ht : 0 <= fonts_h2 (fonts theme) * (25.4 / 72) * 0.7).
      { repeat apply Qmult_le_0_compat; [exact Hf | discriminate ..]. }
      set (t := fonts_h2 (fonts theme) * (25.4 / 72) * 0.7) in *. lra.
Qed.

(** The theme of [Compact Executive], with the [sectionMarginBottom] of the
    creative themes. *)
Lemma compact_box_frames_baseline_witness :
  exists barY barHeight,
    st_doc (snd (drawCompactSectionBox
                   {| theme_name := "Compact Executive";
                      margin := 12;
                      spacing := spacing themeCreative;
                      fonts := fonts themeCreative;
                      lineHeights := lineHeights themeCreative;
                      colors := colors themeCreative;
                      prefixes := prefixes themeCreative;
                      images := None |}
                   "SKILLS" 12 40 {| st_y := 40; st_doc := [] |}))
    = [ SetFillColor (230, 231, 235)%Z; Rect 12 barY (pageWidth - 2 * 12)
          barHeight;
        SetDrawColor (0, 0, 0)%Z; SetLineWidth 0.5;
        Line 12 barY 12 (barY + barHeight) ]
    /\ barY + barHeight == 40 + 1.
Proof.
  destruct (proj2 (compact_box_frames_baseline
                     {| theme_name := "Compact Executive";
                        margin := 12;
                        spacing := spacing themeCreative;
                        fonts := fonts themeCreative;
                        lineHeights := lineHeights themeCreative;
                        colors := colors themeCreative;
                        prefixes := prefixes themeCreative;
                        images := None |}
                     "SKILLS" 12 40 {| st_y := 40; st_doc := [] |}) eq_refl)
    as (barY & barHeight & Hd & Hb & _).
  exists barY, barHeight. rewrite Hd. split; [reflexivity | exact Hb].
Defined.

(** ** More on what a render appends to the log *)

Lemma fontFamily_known (theme : Theme) :
  inherited (theme_name theme) = false ->
  knownFamily (fontFamily theme) = true.
Proof.
  intros Hown. unfold fontFamily, themeFonts. rewrite Hown.
  repeat match goal with
         | |- context [if ?b then _ else _] => destruct b
         end; reflexivity.
Qed.

(** One step through a procedure of the composer; [leaf] shows that a call
    on [doc] is of the wanted kind. *)
Ltac emits_with leaf :=
  repeat first
    [ apply emitsOnly_bind; [| intros ?]
    | apply emitsOnly_emit; leaf
    | apply emitsOnly_ret
    | apply emitsOnly_getY
    | apply emitsOnly_setY
    | apply emitsOnly_advance
    | apply emitsOnly_measure
    | apply emitsOnly_splitToSize
    | apply emitsOnly_forEach; intros ?
    | progress cbv beta iota zeta
    | progress
        unfold when, checkPageOverflow, addNewPage, drawCompactSectionBox,
          drawSectionBar, drawBulletShape, renderBullet, renderSectionTitle,
          renderRole, renderJob, renderHeader, renderSummary,
          renderBulletSection, renderExperience
    | progress cbn [forEach diamondTriangles flat_map petalTriangles app]
    | match goal with
      | |- emitsOnly _ (if ?b then _ else _) => destruct b
      | |- emitsOnly _ (match ?o with _ => _ end) => destruct o
      end ].

Ltac font_leaf Hown :=
  cbn [knownFont]; try rewrite (fontFamily_known _ Hown); reflexivity.

Section RenderLog.

Variable getTextWidth : list Event -> string -> Q.
Variable splitTextToSize : list Event -> string -> Q -> list string.
Variable toUpperCase : string -> string.
Variable theme : Theme.

Lemma renderSections_fonts (headerBarImage sectionBarImage : option string)
    (sections : list SectionData) :
  inherited (theme_name theme) = false ->
  emitsOnly knownFont
    (renderSections getTextWidth splitTextToSize toUpperCase theme
       headerBarImage sectionBarImage sections).
Proof.
  intros Hown. unfold renderSections. apply emitsOnly_forEach.
  intros section.
  destruct section; cbn [renderSection]; emits_with ltac:(font_leaf Hown).
Qed.

Lemma renderSections_no_image (sections : list SectionData) :
  emitsOnly notImage
    (renderSections getTextWidth splitTextToSize toUpperCase theme None None
       sections).
Proof.
  unfold renderSections. apply emitsOnly_forEach. intros section.
  destruct section; cbn [renderSection]; emits_with ltac:(reflexivity).
Qed.

Lemma renderSections_no_save (headerBarImage sectionBarImage : option string)
    (sections : list SectionData) :
  emitsOnly notSave
    (renderSections getTextWidth splitTextToSize toUpperCase theme
       headerBarImage sectionBarImage sections).
Proof.
  unfold renderSections. apply emitsOnly_forEach. intros section.
  destruct section; cbn [renderSection]; emits_with ltac:(reflexivity).
Qed.

Lemma renderSections_known (headerBarImage sectionBarImage : option string)
    (sections : list SectionData) (st : State) :
  renderSections getTextWidth splitTextToSize toUpperCase theme
    headerBarImage sectionBarImage sections st
  = renderSections getTextWidth splitTextToSize toUpperCase theme
      headerBarImage sectionBarImage (filter knownSection sections) st.
Proof.
  unfold renderSections. revert st.
  induction sections as [| section rest IH]; intros st; [reflexivity |].
  destruct section; simpl; unfold bind;
    try (match goal with
         | |- context [?m st] =>
             destruct (m st) as [u st1]; apply IH
         end).
  apply IH.
Qed.

End RenderLog.

(** The log of a whole render, as the block appended to the empty
    document. *)
Lemma generatePDF_emits (p : Event -> bool)
    (getTextWidth : list Event -> string -> Q)
    (splitTextToSize : list Event -> string -> Q -> list string)
    (toUpperCase : string -> string)
    (loadImageAsBase64 : string -> option string)
    (theme : Theme) (sections : list SectionData) :
  p (SetFillColor (bg theme)) = true ->
  p (Rect 0 0 pageWidth pageHeight) = true ->
  p (Save "resume.pdf") = true ->
  (forall h s,
      (h = None \/ exists img, images theme = Some img
                               /\ h = loadImageAsBase64 (headerBar img)) ->
      (s = None \/ exists img, images theme = Some img
                               /\ s = loadImageAsBase64 (sectionBar img)) ->
      emitsOnly p
        (renderSections getTextWidth splitTextToSize toUpperCase theme h s
           sections)) ->
  forallb p
    (generatePDF getTextWidth splitTextToSize toUpperCase loadImageAsBase64
       theme sections) = true.
Proof.
  intros H1 H2 H3 Hs. unfold generatePDF.
  match goal with
  | |- forallb p (st_doc (snd (?m ?st0))) = true =>
      assert (He : emitsOnly p m)
  end.
  { apply emitsOnly_bind; [now apply emitsOnly_emit | intros _].
    apply emitsOnly_bind; [now apply emitsOnly_emit | intros _].
    apply emitsOnly_bind; [| intros _; now apply emitsOnly_emit].
    apply Hs; destruct (images theme) as [img |]; auto;
      right; exists img; auto. }
  match goal with
  | |- forallb p (st_doc (snd (?m ?st0))) = true =>
      destruct (He st0) as (blk & -> & Hp)
  end.
  exact Hp.
Qed.

(** Unless the theme is named after a member inherited from
    [Object.prototype], every font selection of a render names the family
    Inter or JetBrainsMono and the style normal or bold: [themeFonts] has
    no other family, and a theme it does not list gets Inter. *)
Theorem generatePDF_known_fonts
    (getTextWidth : list Event -> string -> Q)
    (splitTextToSize : list Event -> string -> Q -> list string)
    (toUpperCase : string -> string)
    (loadImageAsBase64 : string -> option string)
    (theme : Theme) (sections : list SectionData) :
  inherited (theme_name theme) = false ->
  forallb knownFont
    (generatePDF getTextWidth splitTextToSize toUpperCase loadImageAsBase64
       theme sections) = true.
Proof.
  intros Hown. apply generatePDF_emits; try reflexivity.
  intros h s _ _. apply renderSections_fonts. exact Hown.
Qed.

Lemma generatePDF_known_fonts_witness :
  forallb knownFont
    (generatePDF fixedWidth oneLine sameCase noImage themeCreative
       sampleSections) = true.
Proof.
  apply (generatePDF_known_fonts fixedWidth oneLine sameCase noImage
           themeCreative sampleSections).
  reflexivity.
Defined.

(** When the theme has no images, or the loader finds none, the render
    places no image at all. *)
Theorem generatePDF_without_images
    (getTextWidth : list Event -> string -> Q)
    (splitTextToSize : list Event -> string -> Q -> list string)
    (toUpperCase : string -> string)
    (loadImageAsBase64 : string -> option string)
    (theme : Theme) (sections : list SectionData) :
  images theme = None \/ (forall path, loadImageAsBase64 path = None) ->
  forallb notImage
    (generatePDF getTextWidth splitTextToSize toUpperCase loadImageAsBase64
       theme sections) = true.
Proof.
  intros H. apply generatePDF_emits; try reflexivity.
  intros h s Hh Hs.
  assert (h = None) as ->.
  { destruct Hh as [-> | (img & Hi & ->)]; [reflexivity |].
    destruct H as [H | H]; [congruence | apply H]. }
  assert (s = None) as ->.
  { destruct Hs as [-> | (img & Hi & ->)]; [reflexivity |].
    destruct H as [H | H]; [congruence | apply H]. }
  apply renderSections_no_image.
Qed.

Lemma generatePDF_without_images_witness :
  forallb notImage
    (generatePDF fixedWidth oneLine sameCase noImage themeCreative
       sampleSections) = true.
Proof.
  apply (generatePDF_without_images fixedWidth oneLine sameCase noImage
           themeCreative sampleSections).
  right. reflexivity.
Defined.

(** A render starts by painting the background of the first page and ends
    by saving the document; nothing in between saves. *)
Theorem generatePDF_frame
    (getTextWidth : list Event -> string -> Q)
    (splitTextToSize : list Event -> string -> Q -> list string)
    (toUpperCase : string -> string)
    (loadImageAsBase64 : string -> option string)
    (theme : Theme) (sections : list SectionData) :
  exists mid,
    generatePDF getTextWidth splitTextToSize toUpperCase loadImageAsBase64
      theme sections
    = SetFillColor (colors_bg (colors theme))
      :: Rect 0 0 pageWidth pageHeight :: mid ++ [Save "resume.pdf"]
    /\ forallb notSave mid = true.
Proof.
  unfold generatePDF, bind, emit. simpl.
  match goal with
  | |- context [renderSections ?a ?b ?c ?d ?h ?s sections ?st] =>
      destruct (renderSections_no_save a b c d h s sections st)
        as (mid & Hd & Hp);
      destruct (renderSections a b c d h s sections st) as [u st1]
  end.
  simpl in *. exists mid. rewrite Hd. split; [reflexivity | exact Hp].
Qed.

(** Sections of an unknown type are skipped: the render is the one of the
    document without them. *)
Theorem generatePDF_skips_unknown
    (getTextWidth : list Event -> string -> Q)
    (splitTextToSize : list Event -> string -> Q -> list string)
    (toUpperCase : string -> string)
    (loadImageAsBase64 : string -> option string)
    (theme : Theme) (sections : list SectionData) :
  generatePDF getTextWidth splitTextToSize toUpperCase loadImageAsBase64
    theme sections
  = generatePDF getTextWidth splitTextToSize toUpperCase loadImageAsBase64
      theme (filter knownSection sections).
Proof.
  unfold generatePDF, bind, emit. simpl.
  now rewrite renderSections_known.
Qed.

(** ** More on pages *)

Lemma fillNext_app (bgc : RGB) (r l : list Event) :
  fillNext bgc r = true -> fillNext bgc (r ++ l) = true.
Proof.
  destruct r as [| e1 [| e2 r]]; simpl; try discriminate.
  - destruct e1; discriminate.
  - destruct e1; try discriminate. destruct e2; try discriminate. auto.
Qed.

Lemma pagesFrom_weaken (bgc : RGB) (p : option Event) (l : list Event) :
  pagesFrom bgc None l = true -> pagesFrom bgc p l = true.
Proof.
  destruct l as [| e r]; [reflexivity |]. simpl.
  destruct e; simpl; auto. discriminate.
Qed.

Lemma pagesFrom_app (bgc : RGB) (l1 l2 : list Event) :
  forall p,
    pagesFrom bgc p l1 = true ->
    pagesFrom bgc None l2 = true ->
    pagesFrom bgc p (l1 ++ l2) = true.
Proof.
  induction l1 as [| e l1 IH]; intros p H1 H2.
  - now apply pagesFrom_weaken.
  - simpl in *. apply andb_true_iff in H1. destruct H1 as [He Hr].
    rewrite (IH _ Hr H2), andb_true_r.
    destruct e; auto. destruct p as [[] |]; try discriminate.
    now apply fillNext_app.
Qed.

(** Where a page is added, the call before is the entry into
    [checkPageOverflow] and the two calls after paint the background. *)
Lemma pagesFrom_at (bgc : RGB) (l : list Event) :
  forall p i,
    pagesFrom bgc p l = true ->
    nth_error l i = Some AddPage ->
    (exists r,
        match i with
        | O => p
        | S j => nth_error l j
        end = Some (CheckPageOverflow r))
    /\ fillNext bgc (skipn (S i) l) = true.
Proof.
  induction l as [| e l IH]; intros p [| i] H Hi; simpl in *;
    try discriminate.
  - injection Hi as ->. apply andb_true_iff in H. destruct H as [He _].
    destruct p as [[] |]; try discriminate. split; [eauto | exact He].
  - apply andb_true_iff in H. destruct H as [_ Hr].
    destruct (IH (Some e) i Hr Hi) as [(r & Hc) Hf]. split; [| exact Hf].
    exists r. destruct i; simpl in *; exact Hc.
Qed.

Section Blocks.

Variable P : list Event -> Prop.
Hypothesis P_nil : P [].
Hypothesis P_app : forall l1 l2, P l1 -> P l2 -> P (l1 ++ l2).

Lemma emitsBlock_silent {A : Type} (m : M A) :
  (forall st, st_doc (snd (m st)) = st_doc st) -> emitsBlock P m.
Proof.
  intros H st. exists []. rewrite H, app_nil_r. auto.
Qed.

Lemma emitsBlock_emit (e : Event) : P [e] -> emitsBlock P (emit e).
Proof.
  intros H st. exists [e]. auto.
Qed.

Lemma emitsBlock_bind {A B : Type} (m : M A) (k : A -> M B) :
  emitsBlock P m -> (forall a, emitsBlock P (k a)) -> emitsBlock P (bind m k).
Proof.
  intros Hm Hk st. unfold bind.
  destruct (Hm st) as (b1 & E1 & P1). destruct (m st) as [a st1].
  destruct (Hk a st1) as (b2 & E2 & P2). simpl in *.
  exists (b1 ++ b2). rewrite E2, E1, <- app_assoc. auto.
Qed.

Lemma emitsBlock_forEach {A : Type} (l : list A) (f : A -> M unit) :
  (forall a, emitsBlock P (f a)) -> emitsBlock P (forEach l f).
Proof.
  intros Hf. induction l as [| a r IH]; simpl.
  - now apply emitsBlock_silent.
  - apply emitsBlock_bind; [apply Hf | intros _; exact IH].
Qed.

End Blocks.

(** One step through a procedure of the composer; [call] deals with
    [checkPageOverflow], [leaf] with a single call on [doc]. *)
Ltac blocks_with call leaf :=
  repeat first
    [ call
    | apply emitsBlock_bind; try assumption; [| intros ?]
    | apply emitsBlock_emit; leaf
    | apply emitsBlock_silent; try assumption; reflexivity
    | apply emitsBlock_forEach; try assumption; intros ?
    | progress cbv beta iota zeta
    | progress
        unfold when, drawCompactSectionBox, drawSectionBar, drawBulletShape,
          renderBullet, renderSectionTitle, renderRole, renderJob,
          renderHeader, renderSummary, renderBulletSection, renderExperience
    | progress cbn [forEach diamondTriangles flat_map petalTriangles app]
    | match goal with
      | |- emitsBlock _ (if ?b then _ else _) => destruct b
      | |- emitsBlock _ (match ?o with _ => _ end) => destruct o
      end ].

Section Pages.

Variable getTextWidth : list Event -> string -> Q.
Variable splitTextToSize : list Event -> string -> Q -> list string.
Variable toUpperCase : string -> string.
Variable theme : Theme.

Let Painted (blk : list Event) : Prop :=
  pagesFrom (bg theme) None blk = true.

Lemma Painted_nil : Painted [].
Proof.
  reflexivity.
Qed.

Lemma Painted_app (l1 l2 : list Event) :
  Painted l1 -> Painted l2 -> Painted (l1 ++ l2).
Proof.
  apply pagesFrom_app.
Qed.

Lemma checkPageOverflow_painted (requiredSpace : Q) :
  emitsBlock Painted (checkPageOverflow theme requiredSpace).
Proof.
  intros st.
  unfold checkPageOverflow, addNewPage, bind, emit, getY, setY, ret. simpl.
  destruct (Qgtb _ _); simpl; eexists;
    (split; [repeat rewrite <- app_assoc; reflexivity |]).
  - unfold Painted. simpl. now rewrite rgb_eqb_refl, !sameQ_refl.
  - reflexivity.
Qed.

Lemma renderSections_painted (headerBarImage sectionBarImage : option string)
    (sections : list SectionData) :
  emitsBlock Painted
    (renderSections getTextWidth splitTextToSize toUpperCase theme
       headerBarImage sectionBarImage sections).
Proof.
  pose proof Painted_nil as Hn. pose proof Painted_app as Ha.
  unfold renderSections. apply emitsBlock_forEach; try assumption.
  intros section.
  destruct section; cbn [renderSection];
    blocks_with ltac:(apply checkPageOverflow_painted) ltac:(reflexivity).
Qed.

End Pages.

Lemma generatePDF_painted
    (getTextWidth : list Event -> string -> Q)
    (splitTextToSize : list Event -> string -> Q -> list string)
    (toUpperCase : string -> string)
    (loadImageAsBase64 : string -> option string)
    (theme : Theme) (sections : list SectionData) :
  pagesFrom (bg theme) None
    (generatePDF getTextWidth splitTextToSize toUpperCase loadImageAsBase64
       theme sections) = true.
Proof.
  unfold generatePDF, bind, emit. simpl.
  match goal with
  | |- context [renderSections ?a ?b ?c ?d ?h ?s sections ?st] =>
      destruct (renderSections_painted a b c d h s sections st)
        as (mid & Hd & Hp);
      destruct (renderSections a b c d h s sections st) as [u st1]
  end.
  simpl in *. rewrite Hd. simpl.
  apply pagesFrom_app; [| reflexivity].
  now apply pagesFrom_weaken.
Qed.

(** Every page a render adds is added by [checkPageOverflow] (the call
    before is the entry into it) and gets the background of the theme at
    once: the next two calls select the background colour and fill the whole
    page. *)
Theorem generatePDF_pages_painted
    (getTextWidth : list Event -> string -> Q)
    (splitTextToSize : list Event -> string -> Q -> list string)
    (toUpperCase : string -> string)
    (loadImageAsBase64 : string -> option string)
    (theme : Theme) (sections : list SectionData) (i : nat) :
  let doc :=
    generatePDF getTextWidth splitTextToSize toUpperCase loadImageAsBase64
      theme sections in
  nth_error doc i = Some AddPage ->
  exists j r x y w h,
    i = S j
    /\ nth_error doc j = Some (CheckPageOverflow r)
    /\ nth_error doc (S i) = Some (SetFillColor (colors_bg (colors theme)))
    /\ nth_error doc (S (S i)) = Some (Rect x y w h)
    /\ x == 0 /\ y == 0 /\ w == pageWidth /\ h == pageHeight.
Proof.
  intros doc Hi.
  destruct (pagesFrom_at (bg theme) doc None i
              (generatePDF_painted getTextWidth splitTextToSize toUpperCase
                 loadImageAsBase64 theme sections) Hi) as [(r & Hc) Hf].
  destruct i as [| j]; [discriminate Hc |].
  pose proof (nth_error_skipn (S (S j)) doc 0%nat) as H0.
  pose proof (nth_error_skipn (S (S j)) doc 1%nat) as H1.
  replace (S (S j) + 0)%nat with (S (S j)) in H0 by lia.
  replace (S (S j) + 1)%nat with (S (S (S j))) in H1 by lia.
  set (a0 := nth_error doc (S (S j))) in *.
  set (a1 := nth_error doc (S (S (S j)))) in *.
  destruct (skipn (S (S j)) doc) as [| e1 [| e2 rest]]; try discriminate.
  { destruct e1; discriminate. }
  simpl in Hf, H0, H1.
  destruct e1; try discriminate. destruct e2; try discriminate.
  repeat (apply andb_true_iff in Hf; destruct Hf as [Hf ?]).
  apply rgb_eqb_true in Hf. subst c.
  exists j, r, x, y, w, h.
  split; [reflexivity |]. split; [exact Hc |].
  split; [symmetry; exact H0 |]. split; [symmetry; exact H1 |].
  repeat split; apply sameQ_true; assumption.
Qed.

(** The bullet list of the long sample breaks the page once, at call 770. *)
Lemma generatePDF_pages_painted_witness :
  nth_error
    (generatePDF fixedWidth oneLine sameCase noImage themeCreative
       longSections) 771
  = Some (SetFillColor (255, 255, 255)%Z).
Proof.
  assert (H : nth_error
                (generatePDF fixedWidth oneLine sameCase noImage themeCreative
                   longSections) 770 = Some AddPage)
    by (vm_compute; reflexivity).
  destruct (generatePDF_pages_painted fixedWidth oneLine sameCase noImage
              themeCreative longSections 770 H)
    as (j & r & x & y & w & h & _ & _ & H1 & _).
  exact H1.
Defined.

(** ** More on ghost tokens *)

Section MonitorMore.

Variable bgc : RGB.
Variable mx : Q.

Lemma step_pending_line (mo mo' : Monitor) (e : Event) (k : MarkerKind)
    (y0 : Q) :
  marked e = false ->
  mon_pending mo = Some (k, y0) ->
  monitorStep bgc mx mo e = Some mo' ->
  staysOnLine y0 e = true.
Proof.
  intros Hm Hp.
  destruct e as [| | | | | | site | site | site | | | | | | |]; simpl;
    try reflexivity;
    try (destruct site; simpl in *; try discriminate;
         intros H; apply guard_some in H; destruct H as [Ha _];
         unfold acceptsOther in Ha; rewrite Hp in Ha; exact Ha).
  intros H. apply guard_some in H. destruct H as [Ha _].
  rewrite Hp in Ha. discriminate.
Qed.

(** While a token waits, every call up to its content stays on its page
    and its line. *)
Lemma pending_line (l : list Event) :
  forall mo mo' k y0,
    monitorRun bgc mx mo l = Some mo' ->
    mon_pending mo = Some (k, y0) ->
    forallb (staysOnLine y0) (untilMarked l) = true.
Proof.
  induction l as [| e r IH]; intros mo mo' k y0 H Hp; [reflexivity |].
  simpl in *.
  destruct (monitorStep bgc mx mo e) as [mo1 |] eqn:Hs; [| discriminate].
  destruct (marked e) eqn:Hm; [reflexivity |]. simpl.
  rewrite (step_pending_line _ _ _ _ _ Hm Hp Hs). simpl.
  apply (IH mo1 mo' k y0 H).
  rewrite (step_unmarked _ _ _ _ _ Hm Hs). exact Hp.
Qed.

Let waits (mo : Monitor) : nat :=
  match mon_pending mo with
  | Some _ => 1%nat
  | None => 0%nat
  end.

(** Tokens and contents pair up. *)
Lemma monitor_counts (l : list Event) :
  forall mo mo',
    monitorRun bgc mx mo l = Some mo' ->
    (countGhosts l + waits mo = countContents l + waits mo')%nat.
Proof.
  unfold countGhosts, countContents, waits.
  induction l as [| e r IH]; intros mo mo' H; simpl in *.
  - now injection H as <-.
  - destruct (monitorStep bgc mx mo e) as [mo1 |] eqn:Hs; [| discriminate].
    specialize (IH _ _ H).
    destruct (marked_cases e) as [(k & s & x & y & G) | [(k & x & y & C) | U]].
    + destruct (step_ghost _ _ _ _ _ _ _ _ _ G Hs)
        as (-> & _ & Hn & _ & _ & Hp).
      rewrite Hn. rewrite Hp in IH. simpl in *. lia.
    + destruct (step_content _ _ _ _ _ _ _ _ C Hs) as (y0 & Hp & _ & Hn).
      rewrite Hp. rewrite Hn in IH. rewrite C.
      destruct (ghostOf e) eqn:G.
      { destruct e as [| | | | | | site | site | site | | | | | | |];
          try discriminate; destruct site; discriminate. }
      simpl in *. lia.
    + pose proof (step_unmarked _ _ _ _ _ U Hs) as Hp. rewrite Hp in IH.
      unfold marked in U.
      destruct (ghostOf e); [discriminate |].
      destruct (contentOf e); [discriminate |]. simpl. exact IH.
Qed.

End MonitorMore.

(** From a ghost token up to its content the render stays on the page, and
    every text drawn in between (a prefix, the bullet character) sits on the
    line of the token. *)
Theorem ghost_and_content_share_page
    (getTextWidth : list Event -> string -> Q)
    (splitTextToSize : list Event -> string -> Q -> list string)
    (toUpperCase : string -> string)
    (loadImageAsBase64 : string -> option string)
    (theme : Theme) (sections : list SectionData)
    (i : nat) (k : MarkerKind) (s : string) (x y : Q) :
  let doc :=
    generatePDF getTextWidth splitTextToSize toUpperCase loadImageAsBase64
      theme sections in
  nth_error doc i = Some (Text (Ghost k) s x y) ->
  forallb (staysOnLine y) (untilMarked (skipn (S i) doc)) = true.
Proof.
  intros doc Hi.
  destruct (generatePDF_accepted getTextWidth splitTextToSize toUpperCase
              loadImageAsBase64 theme sections) as [c Hacc].
  fold doc in Hacc. unfold tracks in Hacc.
  rewrite (nth_error_cut _ _ _ Hi), monitorRun_app in Hacc.
  destruct (monitorRun _ _ monitorStart (firstn i doc)) as [m1 |];
    [| discriminate].
  cbn [monitorRun] in Hacc.
  destruct (monitorStep _ _ m1 _) as [m2 |] eqn:Hstep; [| discriminate].
  destruct (step_ghost _ _ _ _ (Text (Ghost k) s x y) k s x y eq_refl Hstep)
    as (_ & _ & _ & _ & _ & Hp).
  apply (pending_line _ _ _ _ _ _ _ Hacc Hp).
Qed.

Lemma ghost_and_content_share_page_witness :
  forallb (staysOnLine 15)
    (untilMarked
       (skipn 6
          (generatePDF fixedWidth oneLine sameCase noImage themeCreative
             sampleSections))) = true.
Proof.
  assert (H : nth_error
                (generatePDF fixedWidth oneLine sameCase noImage themeCreative
                   sampleSections) 5
              = Some (Text (Ghost MkH1) "# " 15 15))
    by (vm_compute; reflexivity).
  exact (ghost_and_content_share_page fixedWidth oneLine sameCase noImage
           themeCreative sampleSections 5 MkH1 "# " 15 15 H).
Defined.

(** A render writes exactly one ghost token per annotated text: as many
    tokens as names, contact lines, titles, companies and bullet texts. *)
Theorem ghost_tokens_match_contents
    (getTextWidth : list Event -> string -> Q)
    (splitTextToSize : list Event -> string -> Q -> list string)
    (toUpperCase : string -> string)
    (loadImageAsBase64 : string -> option string)
    (theme : Theme) (sections : list SectionData) :
  let doc :=
    generatePDF getTextWidth splitTextToSize toUpperCase loadImageAsBase64
      theme sections in
  countGhosts doc = countContents doc.
Proof.
  intros doc.
  destruct (generatePDF_accepted getTextWidth splitTextToSize toUpperCase
              loadImageAsBase64 theme sections) as [c Hacc].
  fold doc in Hacc.
  pose proof (monitor_counts _ _ _ _ _ Hacc) as H. simpl in H. lia.
Qed.

(** ** Long bullet lists *)

(** One step of symbolic execution that keeps no monitor fact. *)
Ltac wp_plain :=
  repeat (lazymatch goal with
          | |- wp (bind _ _) _ _ => apply wp_bind
          | |- wp (ret _) _ _ => apply wp_ret
          | |- wp getY _ _ => apply wp_getY
          | |- wp (advance _) _ _ => apply wp_advance
          | |- wp (setY _) _ _ => apply wp_setY
          | |- wp (measure _ _) _ _ => apply wp_measure
          | |- wp (splitToSize _ _ _) _ _ => apply wp_splitToSize
          | |- wp (emit _) _ _ => apply wp_emit
          end; cbn beta; cbn [st_y st_doc]).

Lemma drawBulletShape_wp (theme : Theme) (Q : unit -> State -> Prop)
    (st : State) :
  (forall blk,
      pageIndex blk = 0%nat ->
      Q tt {| st_y := st_y st; st_doc := st_doc st ++ blk |}) ->
  wp (drawBulletShape theme) Q st.
Proof.
  intros H. unfold wp, drawBulletShape, bind, getY, emit. simpl.
  destruct (isTheme theme "Creative Designer").
  - unfold diamondTriangles. simpl. repeat rewrite <- app_assoc. simpl.
    apply H. reflexivity.
  - destruct (isTheme theme "Creative Designer 2"); simpl;
      repeat rewrite <- app_assoc; simpl; apply H; reflexivity.
Qed.

Lemma lengthQ_nonneg {A : Type} (l : list A) : 0 <= lengthQ l.
Proof.
  unfold lengthQ. change 0 with (inject_Z 0). rewrite <- Zle_Qle. lia.
Qed.

Section BulletList.

Variable splitTextToSize : list Event -> string -> Q -> list string.
Variable theme : Theme.

Hypothesis line_nonneg :
  0 <= lineHeight theme (fonts_li (fonts theme))
         (lineHeights_li (lineHeights theme)).

Let gap : Q := px theme (liMarginBottom (spacing theme)).

(** One bullet either breaks the page, or fits the check and moves [y] down
    by at least the gap below a bullet. *)
Lemma renderBullet_advance (bullet : string) (st : State) :
  let st' := snd (renderBullet splitTextToSize theme bullet st) in
  (pageIndex (st_doc st) <= pageIndex (st_doc st'))%nat
  /\ (pageIndex (st_doc st') = pageIndex (st_doc st) ->
      st_y st + 15 <= pageHeight - margin theme
      /\ st_y st + gap <= st_y st').
Proof.
  change (wp (renderBullet splitTextToSize theme bullet)
            (fun _ st' =>
               (pageIndex (st_doc st) <= pageIndex (st_doc st'))%nat
               /\ (pageIndex (st_doc st') = pageIndex (st_doc st) ->
                   st_y st + 15 <= pageHeight - margin theme
                   /\ st_y st + gap <= st_y st')) st).
  unfold renderBullet, checkPageOverflow, addNewPage. wp_plain.
  destruct (Qgtb (st_y st + 15) (pageHeight - margin theme)) eqn:E;
    wp_plain; apply drawBulletShape_wp; intros blk Hb; wp_plain;
    repeat rewrite pageIndex_app; rewrite Hb; simpl pageIndex.
  - split; [lia | intros H; lia].
  - apply Qgtb_false in E. split; [lia | intros _].
    split; [exact E |].
    match goal with
    | |- _ <= _ + ?n * ?h + _ =>
        assert (Hn : 0 <= n * h)
          by (apply Qmult_le_0_compat;
              [apply lengthQ_nonneg | exact line_nonneg]);
        set (t := n * h) in *
    end.
    unfold gap. lra.
Qed.

Lemma forEach_bullets_pages (bullets : list string) :
  forall st,
    (pageIndex (st_doc st)
     <= pageIndex
          (st_doc (snd (forEach bullets (renderBullet splitTextToSize theme)
                          st))))%nat.
Proof.
  induction bullets as [| b rest IH]; intros st; simpl; [lia |].
  unfold bind.
  pose proof (renderBullet_advance b st) as [H _].
  destruct (renderBullet splitTextToSize theme b st) as [u st1].
  simpl in *. specialize (IH st1). lia.
Qed.

Hypothesis gap_nonneg : 0 <= liMarginBottom (spacing theme).

(** A bullet list too long for what is left of the page breaks it. *)
Lemma bullets_break (rest : list string) :
  forall first st,
    pageHeight - margin theme
    < st_y st + inject_Z (Z.of_nat (List.length rest)) * gap + 15 ->
    (pageIndex (st_doc st)
     < pageIndex
         (st_doc (snd (forEach (first :: rest)
                         (renderBullet splitTextToSize theme) st))))%nat.
Proof.
  induction rest as [| next rest IH]; intros first st Hlong.
  - change (inject_Z (Z.of_nat (List.length (@nil string)))) with 0 in Hlong.
    cbn [forEach]. unfold bind.
    pose proof (renderBullet_advance first st) as [H1 H2].
    destruct (renderBullet splitTextToSize theme first st) as [u st1].
    cbn [fst snd ret] in *.
    destruct (Nat.eq_dec (pageIndex (st_doc st1)) (pageIndex (st_doc st)))
      as [Heq | Hne]; [| lia].
    destruct (H2 Heq) as [Hfit _]. lra.
  - cbn [forEach]. unfold bind at 1.
    pose proof (renderBullet_advance first st) as [H1 H2].
    destruct (renderBullet splitTextToSize theme first st) as [u st1].
    cbn [fst snd] in *.
    destruct (Nat.eq_dec (pageIndex (st_doc st1)) (pageIndex (st_doc st)))
      as [Heq | Hne].
    + destruct (H2 Heq) as [_ Hmove]. rewrite <- Heq. apply IH.
      cbn [List.length] in Hlong.
      rewrite Nat2Z.inj_succ, <- Z.add_1_r, inject_Z_plus in Hlong.
      change (inject_Z 1) with 1 in Hlong.
      set (n := inject_Z (Z.of_nat (List.length rest))) in *.
      assert (Hg : (n + 1) * gap == n * gap + gap) by ring.
      rewrite Hg in Hlong. lra.
    + pose proof (forEach_bullets_pages (next :: rest) st1) as Hm.
      cbn [forEach] in Hm. lia.
Qed.

End BulletList.

(** A bullet list long enough for the rest of the page forces a page break:
    when the gaps below all bullets but the last, added to [y] and to the 15
    units of the space check, pass the bottom margin, the list adds at least
    one page. *)
Theorem bullets_force_page_break
    (splitTextToSize : list Event -> string -> Q -> list string)
    (theme : Theme) (first : string) (rest : list string) (st : State) :
  0 <= lineHeight theme (fonts_li (fonts theme))
         (lineHeights_li (lineHeights theme)) ->
  0 <= liMarginBottom (spacing theme) ->
  pageHeight - margin theme
  < st_y st
    + inject_Z (Z.of_nat (List.length rest))
      * px theme (liMarginBottom (spacing theme))
    + 15 ->
  (pageIndex (st_doc st)
   < pageIndex
       (st_doc (snd (forEach (first :: rest)
                       (renderBullet splitTextToSize theme) st))))%nat.
Proof.
  intros H1 H2 H3. now apply bullets_break.
Qed.

Lemma bullets_force_page_break_witness :
  (pageIndex []
   < pageIndex
       (st_doc (snd (forEach ["A"; "B"] (renderBullet oneLine themeCreative)
                       {| st_y := 267; st_doc := [] |}))))%nat.
Proof.
  apply (bullets_force_page_break oneLine themeCreative "A" ["B"]
           {| st_y := 267; st_doc := [] |});
    [discriminate | discriminate | reflexivity].
Defined.

(** ** Texts that show nothing *)

Lemma concatTexts_nil_iff (segments : list Segment) :
  (forall seg, In seg segments -> seg_text seg <> EmptyString) ->
  concatTexts segments = EmptyString -> segments = [].
Proof.
  destruct segments as [| seg rest]; [reflexivity |].
  intros Hne H. exfalso. apply (Hne seg); [now left |].
  simpl in H. destruct (seg_text seg); [reflexivity | discriminate].
Qed.

Lemma parse_nil_iff (s : string) :
  parseInlineBold s = [] <-> stripDelims s = EmptyString.
Proof.
  rewrite <- parse_concat_strip. split.
  - intros ->. reflexivity.
  - apply concatTexts_nil_iff. intros seg Hin.
    rewrite parseInlineBold_chunks in Hin.
    apply (segmentsOf_from_chunks _ _ _ Hin).
Qed.

(** The parser returns no segment exactly when nothing is left of the text
    once its delimiters are removed. *)
Theorem parse_nothing_iff (s : string) :
  parseInlineBold s = [] <-> stripDelims s = EmptyString.
Proof.
  apply parse_nil_iff.
Qed.

(** For such a text [renderInlineBold] draws nothing and returns the [y] it
    was given. *)
Theorem inline_nothing_to_draw
    (getTextWidth : list Event -> string -> Q) (doc : list Event)
    (text : string) (x y : Q) (theme : Theme) (maxWidth pageWidth margin : Q)
    (fontFamily : string) :
  stripDelims text = EmptyString ->
  renderInlineBold getTextWidth doc text x y theme maxWidth pageWidth margin
    fontFamily = (y, doc).
Proof.
  intros H. apply parse_nil_iff in H.
  unfold renderInlineBold. rewrite H. reflexivity.
Qed.

Lemma inline_nothing_to_draw_witness :
  renderInlineBold fixedWidth [] "****" 0 7 themeCreative 20 30 10 "Inter"
  = (7, []).
Proof.
  exact (inline_nothing_to_draw fixedWidth [] "****" 0 7 themeCreative 20 30
           10 "Inter" eq_refl).
Defined.

(** ** The first word *)

(** The first word of a text is never wrapped: it is placed at the start
    position, however wide it is. *)
Theorem inline_first_word_at_start
    (getTextWidth : list Event -> string -> Q) (doc : list Event)
    (text : string) (x y : Q) (theme : Theme) (maxWidth pageWidth margin : Q)
    (fontFamily : string) :
  stripDelims text <> EmptyString ->
  exists word more,
    wordsOf (snd (renderInlineBold getTextWidth doc text x y theme maxWidth
                    pageWidth margin fontFamily))
    = wordsOf doc ++ (word, x, y) :: more.
Proof.
  intros Hne. unfold renderInlineBold. cbn [snd].
  destruct (parseInlineBold text) as [| segment rest] eqn:Hp.
  { exfalso. apply Hne. now apply parse_nil_iff. }
  unfold renderSegments. cbn [fold_left]. unfold renderSegment at 2.
  pose proof (split_not_nil " " (seg_text segment)) as Hs.
  destruct (split " " (seg_text segment)) as [| w0 ws] eqn:Es;
    [contradiction |].
  cbn [forEachWord].
  set (fl0 := {| currentX := x; currentY := y; flow_doc := doc |}).
  pose proof (renderWord_places getTextWidth theme x (pageWidth - margin)
                fontFamily segment (List.length (w0 :: ws)) w0 0 fl0) as Hw.
  cbv zeta in Hw. destruct Hw as (Hd & _).
  set (fl1 := renderWord getTextWidth theme x (pageWidth - margin) fontFamily
                segment (List.length (w0 :: ws)) w0 0 fl0) in *.
  assert (Hx : Qgtb (currentX fl0) x = false).
  { apply Qgtb_false. simpl. lra. }
  rewrite Hx, andb_false_r in Hd.
  destruct (forEachWord_log getTextWidth theme x (pageWidth - margin)
              fontFamily segment (List.length (w0 :: ws)) ws 1 fl1 eq_refl)
    as (b1 & k1 & (Hd1 & _) & _).
  set (fl2 := forEachWord _ ws 1%nat fl1) in *.
  destruct (renderSegments_log getTextWidth theme x (pageWidth - margin)
              fontFamily rest fl2) as (b2 & k2 & (Hd2 & _) & _).
  unfold renderSegments in Hd2. rewrite Hd2, Hd1, !wordsOf_app, Hd.
  eexists. eexists. rewrite <- !app_assoc. simpl. reflexivity.
Qed.

Lemma inline_first_word_at_start_witness :
  exists word more,
    wordsOf (snd (renderInlineBold fixedWidth []
                    "averyveryverylongword next" 0 0 themeCreative 20 30 10
                    "Inter"))
    = wordsOf [] ++ (word, 0, 0) :: more.
Proof.
  apply (inline_first_word_at_start fixedWidth []
           "averyveryverylongword next" 0 0 themeCreative 20 30 10 "Inter").
  discriminate.
Defined.

(** ** The top margin *)

Lemma wp_emit_top (m : Q) (e : Event) (Q : unit -> State -> Prop)
    (st : State) :
  Forall (belowTop m) (st_doc st) ->
  belowTop m e ->
  (Forall (belowTop m) (st_doc st ++ [e]) ->
   Q tt {| st_y := st_y st; st_doc := st_doc st ++ [e] |}) ->
  wp (emit e) Q st.
Proof.
  intros H He K. apply wp_emit, K, Forall_app. split; [exact H |].
  constructor; [exact He | constructor].
Qed.

(** One step of symbolic execution; [H] names the fact about the texts
    drawn so far. *)
Ltac wp_top H :=
  lazymatch goal with
  | |- wp (bind _ _) _ _ => apply wp_bind
  | |- wp (ret _) _ _ => apply wp_ret
  | |- wp getY _ _ => apply wp_getY
  | |- wp (advance _) _ _ => apply wp_advance
  | |- wp (setY _) _ _ => apply wp_setY
  | |- wp (measure _ _) _ _ => apply wp_measure
  | |- wp (splitToSize _ _ _) _ _ => apply wp_splitToSize
  | |- wp (emit ?e) _ _ =>
      eapply wp_emit_top;
      [ exact H | first [exact I | cbn [belowTop]; lra] | clear H; intro H ]
  end;
  cbn beta; cbn [st_y st_doc] in *.

(** The advance below wrapped lines is a product; name it for the linear
    arithmetic. *)
Ltac tame_lines :=
  repeat match goal with
         | |- context [lengthQ ?l * ?h] =>
             let t := fresh "t" in
             let Ht := fresh "Ht" in
             assert (Ht : 0 <= lengthQ l * h)
               by (apply Qmult_le_0_compat;
                   [apply lengthQ_nonneg | assumption]);
             set (t := lengthQ l * h) in *
         end.

Ltac top_done H :=
  repeat wp_top H; tame_lines; split; [cbn [st_y]; lra | exact H].

Ltac top_join theme :=
  apply wp_mono with (R := fun _ st' => topOk theme st').

Section TopMargin.

Variable getTextWidth : list Event -> string -> Q.
Variable splitTextToSize : list Event -> string -> Q -> list string.
Variable toUpperCase : string -> string.
Variable theme : Theme.
Variable headerBarImage : option string.
Variable sectionBarImage : option string.

Hypothesis Hdown : downward theme.

Lemma downward_facts :
  (0 <= px theme (h1MarginBottom (spacing theme))
   /\ 0 <= px theme (subHeaderMarginBottom (spacing theme))
   /\ 0 <= px theme (h2MarginTop (spacing theme))
   /\ 0 <= px theme (h2MarginBottom (spacing theme))
   /\ 0 <= px theme (liMarginBottom (spacing theme)))
  /\ (0 <= pt theme (fonts_h1 (fonts theme))
      /\ 0 <= pt theme (fonts_subHeader (fonts theme))
      /\ 0 <= pt theme (fonts_h2 (fonts theme)))
  /\ (0 <= lineHeight theme (fonts_li (fonts theme))
             (lineHeights_li (lineHeights theme))
      /\ 0 <= lineHeight theme (fonts_body (fonts theme))
                (lineHeights_body (lineHeights theme))).
Proof.
  destruct Hdown as [Hf _].
  repeat match goal with
         | H : Forall _ (_ :: _) |- _ => inversion H; clear H; subst
         end.
  unfold px, pt, PX_TO_MM, PT_TO_MM.
  repeat split; try assumption;
    repeat apply Qmult_le_0_compat; try assumption; discriminate.
Qed.

Ltac facts :=
  destruct downward_facts
    as ((F1 & F2 & F3 & F4 & F5) & (G1 & G2 & G3) & (L1 & L2)).

Lemma checkPageOverflow_top (requiredSpace : Q) (st : State) :
  topOk theme st ->
  wp (checkPageOverflow theme requiredSpace) (fun _ st' => topOk theme st')
    st.
Proof.
  intros [Hy H]. unfold checkPageOverflow, addNewPage. do 4 wp_top H.
  destruct (Qgtb _ _); top_done H.
Qed.

Lemma drawCompactSectionBox_top (text : string) (x y : Q) (st : State) :
  topOk theme st ->
  wp (drawCompactSectionBox theme text x y) (fun _ st' => topOk theme st')
    st.
Proof.
  intros [Hy H]. unfold drawCompactSectionBox, when.
  destruct (isTheme theme "Compact Executive"); top_done H.
Qed.

Lemma drawSectionBar_top (st : State) :
  topOk theme st ->
  wp (drawSectionBar theme sectionBarImage) (fun _ st' => topOk theme st') st.
Proof.
  intros [Hy H]. unfold drawSectionBar.
  destruct sectionBarImage; destruct (images theme); top_done H.
Qed.

Lemma drawBulletShape_top (st : State) :
  topOk theme st ->
  wp (drawBulletShape theme)
    (fun _ st' => topOk theme st' /\ st_y st' = st_y st) st.
Proof.
  intros [Hy H]. unfold drawBulletShape. repeat wp_top H.
  destruct (isTheme theme "Creative Designer").
  - unfold diamondTriangles. cbn [flat_map petalTriangles app forEach].
    repeat wp_top H. split; [split; [exact Hy | exact H] | reflexivity].
  - destruct (isTheme theme "Creative Designer 2"); repeat wp_top H;
      (split; [split; [exact Hy | exact H] | reflexivity]).
Qed.

Lemma forEach_top {A : Type} (f : A -> M unit) (l : list A) :
  (forall a st,
      topOk theme st -> wp (f a) (fun _ st' => topOk theme st') st) ->
  forall st,
    topOk theme st -> wp (forEach l f) (fun _ st' => topOk theme st') st.
Proof.
  intros Hf. induction l as [| a r IH]; intros st Hi; simpl.
  - apply wp_ret. exact Hi.
  - apply wp_bind. eapply wp_mono; [apply Hf; exact Hi |].
    intros ? st' Hi'. apply IH. exact Hi'.
Qed.

Lemma renderBullet_top (bullet : string) (st : State) :
  topOk theme st ->
  wp (renderBullet splitTextToSize theme bullet)
    (fun _ st' => topOk theme st') st.
Proof.
  facts. intros Hi. unfold renderBullet. apply wp_bind.
  eapply wp_mono; [apply checkPageOverflow_top; exact Hi |].
  clear Hi st. intros ? st [Hy H]. cbn beta. repeat wp_top H.
  eapply wp_mono; [apply drawBulletShape_top; split; [exact Hy | exact H] |].
  clear H. intros ? st1 [[Hy1 H] Hsame]. cbn beta.
  cbn [st_y] in Hsame. top_done H.
Qed.

Lemma renderSectionTitle_top (title : string) (st : State) :
  topOk theme st ->
  wp (renderSectionTitle getTextWidth toUpperCase theme title)
    (fun _ st' => topOk theme st') st.
Proof.
  facts. intros [Hy H]. unfold renderSectionTitle. repeat wp_top H.
  top_join theme.
  { destruct (truthy _); top_done H. }
  clear H. intros sectionX st1 [Hy1 H]. cbn beta. repeat wp_top H.
  eapply wp_mono;
    [apply drawCompactSectionBox_top; split; [exact Hy1 | exact H] |].
  clear H. intros ? st2 [Hy2 H]. cbn beta. top_done H.
Qed.

Lemma renderHeader_top (name contact : string) (st : State) :
  topOk theme st ->
  wp (renderHeader getTextWidth toUpperCase theme headerBarImage name contact)
    (fun _ st' => topOk theme st') st.
Proof.
  facts. intros [Hy H]. unfold renderHeader. repeat wp_top H.
  top_join theme.
  { destruct (truthy _); top_done H. }
  clear H. intros nameX st1 [Hy1 H]. cbn beta. repeat wp_top H.
  top_join theme.
  { destruct (isTheme theme "Classic Minimalist"); top_done H. }
  clear H. intros ? st2 [Hy2 H]. cbn beta. repeat wp_top H.
  top_join theme.
  { unfold when. destruct (truthy contact); [| top_done H]. repeat wp_top H.
    top_join theme.
    { destruct (truthy _); top_done H. }
    clear H. intros contactX st3 [Hy3 H]. cbn beta. repeat wp_top H.
    destruct Hdown as [_ Himg].
    destruct headerBarImage; destruct (images theme); top_done H. }
  clear H. intros ? st3 [Hy3 H]. cbn beta. repeat wp_top H.
  top_join theme.
  { unfold when. destruct (isTheme theme "Classic Minimalist"); top_done H. }
  clear H. intros ? st4 [Hy4 H]. cbn beta.
  unfold when. destruct (isTheme theme "Compact Executive"); top_done H.
Qed.

Lemma renderSummary_top (text : string) (st : State) :
  topOk theme st ->
  wp (renderSummary splitTextToSize theme text)
    (fun _ st' => topOk theme st') st.
Proof.
  facts. intros Hi. unfold renderSummary. apply wp_bind.
  eapply wp_mono; [apply checkPageOverflow_top; exact Hi |].
  clear Hi st. intros ? st [Hy H]. cbn beta. top_done H.
Qed.

Lemma renderBulletSection_top (title : string) (bullets : list string)
    (st : State) :
  topOk theme st ->
  wp (renderBulletSection getTextWidth splitTextToSize toUpperCase theme
        sectionBarImage title bullets)
    (fun _ st' => topOk theme st') st.
Proof.
  facts. intros Hi. unfold renderBulletSection. apply wp_bind.
  eapply wp_mono; [apply checkPageOverflow_top; exact Hi |].
  clear Hi st. intros ? st [Hy H]. cbn beta. repeat wp_top H.
  eapply wp_mono;
    [apply drawSectionBar_top; split; [cbn [st_y]; lra | exact H] |].
  clear H. intros ? st1 [Hy1 H]. cbn beta. repeat wp_top H.
  eapply wp_mono;
    [eapply renderSectionTitle_top; split; [exact Hy1 | exact H] |].
  clear H. intros ? st2 Hi. cbn beta.
  apply forEach_top; [| exact Hi]. intros; now apply renderBullet_top.
Qed.

Lemma renderExperience_top (title : string) (st : State) :
  topOk theme st ->
  wp (renderExperience getTextWidth splitTextToSize toUpperCase theme
        sectionBarImage title [])
    (fun _ st' => topOk theme st') st.
Proof.
  facts. intros Hi. unfold renderExperience. apply wp_bind.
  eapply wp_mono; [apply checkPageOverflow_top; exact Hi |].
  clear Hi st. intros ? st [Hy H]. cbn beta. repeat wp_top H.
  eapply wp_mono;
    [apply drawSectionBar_top; split; [cbn [st_y]; lra | exact H] |].
  clear H. intros ? st1 [Hy1 H]. cbn beta. repeat wp_top H.
  eapply wp_mono;
    [eapply renderSectionTitle_top; split; [exact Hy1 | exact H] |].
  clear H. intros ? st2 Hi. cbn beta. cbn [forEach].
  apply wp_ret. exact Hi.
Qed.

Lemma renderSection_top (section : SectionData) (st : State) :
  jobless section = true ->
  topOk theme st ->
  wp (renderSection getTextWidth splitTextToSize toUpperCase theme
        headerBarImage sectionBarImage section)
    (fun _ st' => topOk theme st') st.
Proof.
  intros Hj Hi. destruct section as [| | | title [| job jobs] |];
    try discriminate Hj; cbn [renderSection].
  - now apply renderHeader_top.
  - now apply renderSummary_top.
  - now apply renderBulletSection_top.
  - now apply renderExperience_top.
  - apply wp_ret. exact Hi.
Qed.

Lemma renderSections_top (sections : list SectionData) (st : State) :
  forallb jobless sections = true ->
  topOk theme st ->
  wp (renderSections getTextWidth splitTextToSize toUpperCase theme
        headerBarImage sectionBarImage sections)
    (fun _ st' => topOk theme st') st.
Proof.
  unfold renderSections. revert st.
  induction sections as [| section rest IH]; intros st Hj Hi;
    cbn [forEach].
  - apply wp_ret. exact Hi.
  - cbn [forallb] in Hj. apply andb_prop in Hj. destruct Hj as [Hs Hr].
    apply wp_bind. eapply wp_mono; [apply renderSection_top; assumption |].
    intros ? st' Hi'. apply IH; assumption.
Qed.

End TopMargin.

(** With a theme whose sizes and gaps are not negative, a render of a
    document without jobs never draws a text above the top margin: the y of
    every text it places is at least the margin, on the first page and
    after every page break. *)
Theorem jobless_render_below_top_margin
    (getTextWidth : list Event -> string -> Q)
    (splitTextToSize : list Event -> string -> Q -> list string)
    (toUpperCase : string -> string)
    (loadImageAsBase64 : string -> option string)
    (theme : Theme) (sections : list SectionData) :
  downward theme ->
  forallb jobless sections = true ->
  Forall (belowTop (margin theme))
    (generatePDF getTextWidth splitTextToSize toUpperCase loadImageAsBase64
       theme sections).
Proof.
  intros Hdown Hj. unfold generatePDF.
  set (st0 := {| st_y := margin theme; st_doc := [] |}).
  assert (H : Forall (belowTop (margin theme)) (st_doc st0)) by constructor.
  assert (Hy : margin theme <= st_y st0) by (simpl; lra).
  match goal with
  | |- Forall _ (st_doc (snd (?m st0))) =>
      change (wp m (fun _ st' =>
                      Forall (belowTop (margin theme)) (st_doc st')) st0)
  end.
  repeat wp_top H.
  eapply wp_mono.
  { apply renderSections_top; [exact Hdown | exact Hj |].
    split; [exact Hy | exact H]. }
  clear H. intros ? st1 [Hy1 H]. cbn beta. repeat wp_top H. exact H.
Qed.

Lemma jobless_render_below_top_margin_witness :
  Forall (belowTop 15)
    (generatePDF fixedWidth oneLine sameCase noImage themeCreative
       longSections).
Proof.
  apply (jobless_render_below_top_margin fixedWidth oneLine sameCase noImage
           themeCreative longSections).
  - split; [repeat constructor; discriminate | discriminate].
  - reflexivity.
Defined.

(** ** The gap below a job *)

Section JoblessRender.

Variable getTextWidth : list Event -> string -> Q.
Variable splitTextToSize : list Event -> string -> Q -> list string.
Variable toUpperCase : string -> string.
Variable theme : Theme.
Variable v : Q.

Lemma renderSection_jobless (headerBarImage sectionBarImage : option string)
    (section : SectionData) :
  jobless section = true ->
  renderSection getTextWidth splitTextToSize toUpperCase
    (withSectionMarginBottom v theme) headerBarImage sectionBarImage section
  = renderSection getTextWidth splitTextToSize toUpperCase theme
      headerBarImage sectionBarImage section.
Proof.
  intros Hj. destruct section as [| | | title [| job jobs] |];
    try discriminate Hj; reflexivity.
Qed.

Lemma renderSections_jobless (headerBarImage sectionBarImage : option string)
    (sections : list SectionData) (st : State) :
  forallb jobless sections = true ->
  renderSections getTextWidth splitTextToSize toUpperCase
    (withSectionMarginBottom v theme) headerBarImage sectionBarImage sections
    st
  = renderSections getTextWidth splitTextToSize toUpperCase theme
      headerBarImage sectionBarImage sections st.
Proof.
  unfold renderSections. revert st.
  induction sections as [| section rest IH]; intros st Hj; [reflexivity |].
  cbn [forallb] in Hj. apply andb_prop in Hj. destruct Hj as [Hs Hr].
  cbn [forEach]. unfold bind.
  rewrite (renderSection_jobless _ _ _ Hs).
  destruct (renderSection _ _ _ theme _ _ section st) as [u st'].
  apply IH. exact Hr.
Qed.

End JoblessRender.

(** [theme.spacing.sectionMarginBottom] is read after a job and nowhere
    else: the render of a document without jobs is the same whatever its
    value, so such a render is that of a theme which leaves it out. *)
Theorem jobless_render_ignores_sectionMarginBottom
    (getTextWidth : list Event -> string -> Q)
    (splitTextToSize : list Event -> string -> Q -> list string)
    (toUpperCase : string -> string)
    (loadImageAsBase64 : string -> option string)
    (theme : Theme) (sections : list SectionData) (v : Q) :
  forallb jobless sections = true ->
  generatePDF getTextWidth splitTextToSize toUpperCase loadImageAsBase64
    (withSectionMarginBottom v theme) sections
  = generatePDF getTextWidth splitTextToSize toUpperCase loadImageAsBase64
      theme sections.
Proof.
  intros Hj. unfold generatePDF, bind, emit.
  cbn [images withSectionMarginBottom margin snd st_doc st_y].
  rewrite (renderSections_jobless _ _ _ _ _ _ _ _ _ Hj).
  reflexivity.
Qed.

Lemma jobless_render_ignores_sectionMarginBottom_witness :
  generatePDF fixedWidth oneLine sameCase noImage
    (withSectionMarginBottom 0 themeCreative) longSections
  = generatePDF fixedWidth oneLine sameCase noImage themeCreative
      longSections.
Proof.
  apply (jobless_render_ignores_sectionMarginBottom fixedWidth oneLine
           sameCase noImage themeCreative longSections 0).
  reflexivity.
Defined.
